(** * ResultWire: a Result type as plain data, and its combinators

    A shallow embedding of [src/index.ts] (module [ResultWire]) and of
    its sibling [src/helpers.ts] (module [Helpers]), together with the
    part of the JavaScript host semantics the library relies on: calls
    that may throw and have effects, promises with [then] and [catch],
    [Error] objects (module [Host]), and a store of objects for the
    questions about mutation (module [Store]). *)

From stdpp Require Import base list strings.

Set Default Proof Using "Type".
Open Scope string_scope.
Open Scope list_scope.

(** ** The host: completions, effects, promises *)

Module Host.

(** How a call ends: it returns a value or it throws one. *)
Inductive Completion (X A : Type) : Type :=
| Normal (value : A)
| Throw (thrown : X).
Arguments Normal {X A} value.
Arguments Throw {X A} thrown.

(** A caller-supplied function may do anything to the world [W] it
    closes over and may throw; what it did before throwing stays. *)
Definition M (W X A : Type) : Type := W -> Completion X A * W.

Definition ret {W X A} (a : A) : M W X A := fun w => (Normal a, w).

Definition bind {W X A B} (c : M W X A) (k : A -> M W X B) : M W X B :=
  fun w =>
    match c w with
    | (Normal a, w') => k a w'
    | (Throw x, w') => (Throw x, w')
    end.

Definition throw {W X A} (x : X) : M W X A := fun w => (Throw x, w).

(** [try { body } catch (e) { handler(e) }] *)
Definition tryCatch {W X Y A} (body : M W X A) (handler : X -> M W Y A)
  : M W Y A :=
  fun w =>
    match body w with
    | (Normal a, w') => (Normal a, w')
    | (Throw x, w') => handler x w'
    end.

(** A promise, given by the state it finally reaches: fulfilled with a
    value, rejected with a reason, or pending for ever. *)
Inductive Promise (X A : Type) : Type :=
| Pending
| Fulfilled (value : A)
| Rejected (reason : X).
Arguments Pending {X A}.
Arguments Fulfilled {X A} value.
Arguments Rejected {X A} reason.

(** [p.then(onFulfilled)]: the derived promise is fulfilled with what
    the reaction returns, rejected with what it throws; a rejection of
    [p] passes through.  The reactions used by the library return
    plain objects, so no thenable is ever adopted. *)
Definition then_ {X A B} (p : Promise X A) (onFulfilled : A -> Completion X B)
  : Promise X B :=
  match p with
  | Pending => Pending
  | Fulfilled value =>
      match onFulfilled value with
      | Normal b => Fulfilled b
      | Throw x => Rejected x
      end
  | Rejected reason => Rejected reason
  end.

(** [p.catch(onRejected)], that is [p.then(undefined, onRejected)]. *)
Definition catch_ {X A} (p : Promise X A) (onRejected : X -> Completion X A)
  : Promise X A :=
  match p with
  | Pending => Pending
  | Fulfilled value => Fulfilled value
  | Rejected reason =>
      match onRejected reason with
      | Normal a => Fulfilled a
      | Throw x => Rejected x
      end
  end.

(** What a function hands back, as [instanceof Promise] sees it. *)
Inductive Returned (X A : Type) : Type :=
| Plain (value : A)
| IsPromise (promise : Promise X A).
Arguments Plain {X A} value.
Arguments IsPromise {X A} promise.

(** An [Error] object: its message, and the [cause] option of the
    constructor, which is where a payload would be attached. *)
Record Error (C : Type) : Type := mkError {
  message : string;
  cause : option C
}.
Arguments mkError {C} message cause.
Arguments message {C} e.
Arguments cause {C} e.

(** [new Error(message)] *)
Definition new_Error {C} (msg : string) : Error C :=
  {| message := msg; cause := None |}.

(** [await p] in the body of an [async function], with the rest of
    the body after it: the rest runs on the value [p] is fulfilled
    with; a rejection of [p] is thrown at the [await], and uncaught it
    rejects the promise of the function; while [p] stays pending the
    body does not go on. *)
Definition await_ {X A B} (p : Promise X A) (rest : A -> Completion X B)
  : Promise X B :=
  then_ p rest.

(** A call of an [async function]: the body runs at once up to its
    first [await]; the call hands back a promise and never throws, what
    the body throws rejects that promise.  [body] computes the state
    this promise reaches. *)
Definition async_function {W X A} (body : M W X (Promise X A))
  : M W X (Promise X A) :=
  fun w =>
    match body w with
    | (Normal p, w') => (Normal p, w')
    | (Throw x, w') => (Normal (Rejected x), w')
    end.

End Host.

Declare Scope js_scope.
Delimit Scope js_scope with js.
Notation "x <- c ;; k" := (Host.bind c (fun x => k))
  (at level 100, c at next level, right associativity) : js_scope.

(** ** src/index.ts *)

Module ResultWire.
Import Host.

(** [type Result<T, E> = Ok<T> | Err<E>]: the two object shapes
    [{kind: 'ok', value}] and [{kind: 'err', error}]. *)
Inductive Result (T E : Type) : Type :=
| Ok (value : T)
| Err (error : E).
Arguments Ok {T E} value.
Arguments Err {T E} error.

(** The discriminator field. *)
Definition kind {T E} (result : Result T E) : string :=
  match result with
  | Ok _ => "ok"
  | Err _ => "err"
  end.

Definition ok {T E} (value : T) : Result T E := Ok value.

Definition err {T E} (error : E) : Result T E := Err error.

Definition isOk {T E} (result : Result T E) : bool :=
  String.eqb (kind result) "ok".

Definition isErr {T E} (result : Result T E) : bool :=
  String.eqb (kind result) "err".

(** In the functions below a [match] on the result stands for the
    test [isOk(result)] or [isErr(result)] followed by the read of the
    field the test has narrowed to. *)

Definition map {W X T U E} (result : Result T E)
    (f : T -> M W X (Returned X U)) : M W X (Returned X (Result U E)) :=
  match result with
  | Ok value =>
      (res <- f value ;;
       match res with
       | IsPromise p => ret (IsPromise (then_ p (fun v => Normal (ok v))))
       | Plain u => ret (Plain (ok u))
       end)%js
  | Err error => ret (Plain (Err error))
  end.

Definition mapErr {W X T E F} (result : Result T E) (f : E -> M W X F)
  : M W X (Result T F) :=
  match result with
  | Err error => (e <- f error ;; ret (err e))%js
  | Ok value => ret (Ok value)
  end.

Definition unwrapOr {T E} (result : Result T E) (defaultValue : T) : T :=
  match result with
  | Ok value => value
  | Err _ => defaultValue
  end.

(** Both branches of the [instanceof Promise] test return [res]. *)
Definition andThen {W X T U E} (result : Result T E)
    (f : T -> M W X (Returned X (Result U E)))
  : M W X (Returned X (Result U E)) :=
  match result with
  | Ok value =>
      (res <- f value ;;
       match res with
       | IsPromise p => ret (IsPromise p)
       | Plain r => ret (Plain r)
       end)%js
  | Err error => ret (Plain (Err error))
  end.

Definition orElse {W X T E F} (result : Result T E)
    (f : E -> M W X (Result T F)) : M W X (Result T F) :=
  match result with
  | Err error => f error
  | Ok value => ret (Ok value)
  end.

Definition match_ {W X T E U} (result : Result T E)
    (okFn : T -> M W X (Returned X U)) (errFn : E -> M W X (Returned X U))
  : M W X (Returned X U) :=
  match result with
  | Ok value =>
      (res <- okFn value ;;
       match res with
       | IsPromise p => ret (IsPromise p)
       | Plain u => ret (Plain u)
       end)%js
  | Err error =>
      (res <- errFn error ;;
       match res with
       | IsPromise p => ret (IsPromise p)
       | Plain u => ret (Plain u)
       end)%js
  end.

Definition fromThrowable {W X T} (f : unit -> M W X (Returned X T))
  : M W X (Returned X (Result T X)) :=
  tryCatch
    (result <- f tt ;;
     match result with
     | IsPromise p =>
         ret (IsPromise (catch_ (then_ p (fun v => Normal (ok v)))
                                (fun e => Normal (err e))))
     | Plain v => ret (Plain (ok v))
     end)%js
    (fun e => ret (Plain (err e))).

Definition fromPromise {T E} (promise : Promise E T)
  : Promise E (Result T E) :=
  catch_ (then_ promise (fun v => Normal (ok v)))
         (fun error => Normal (err error)).

(** The [for ... of] loop of [combine], with [values] as it stands
    when the remaining elements are [results]. *)
Fixpoint combine_loop {T E} (values : list T) (results : list (Result T E))
  : Result (list T) E :=
  match results with
  | [] => ok values
  | result :: rest =>
      match result with
      | Err error => Err error
      | Ok value => combine_loop (values ++ [value]) rest
      end
  end.

Definition combine {T E} (results : list (Result T E)) : Result (list T) E :=
  combine_loop [] results.

Fixpoint combineWithAllErrors_loop {T E} (values : list T) (errors : list E)
    (results : list (Result T E)) : Result (list T) (list E) :=
  match results with
  | [] => if Nat.eqb (List.length errors) 0 then ok values else err errors
  | result :: rest =>
      match result with
      | Ok value => combineWithAllErrors_loop (values ++ [value]) errors rest
      | Err error => combineWithAllErrors_loop values (errors ++ [error]) rest
      end
  end.

Definition combineWithAllErrors {T E} (results : list (Result T E))
  : Result (list T) (list E) :=
  combineWithAllErrors_loop [] [] results.

Definition unsafeUnwrap {T E} (result : Result T E) : Completion (Error E) T :=
  match result with
  | Err _ => Throw (new_Error "Attempted to unwrap an Err value")
  | Ok value => Normal value
  end.

End ResultWire.

(** ** src/helpers.ts

    The sibling module over the same [Result] type (imported there from
    [./result]): its synchronous combinators apply no [instanceof
    Promise] test, whatever the callback hands back. *)

Module Helpers.
Import Host.
Export ResultWire (Result, Ok, Err, ok, err, isOk, isErr).

Definition map {W X T U E} (result : Result T E) (f : T -> M W X U)
  : M W X (Result U E) :=
  match result with
  | Ok value => (u <- f value ;; ret (ok u))%js
  | Err error => ret (Err error)
  end.

Definition andThen {W X T U E} (result : Result T E)
    (f : T -> M W X (Result U E)) : M W X (Result U E) :=
  match result with
  | Ok value => f value
  | Err error => ret (Err error)
  end.

Definition fromThrowable {W X T} (f : unit -> M W X T) : M W X (Result T X) :=
  tryCatch (v <- f tt ;; ret (ok v))%js (fun e => ret (err e)).

Fixpoint combine_loop {T E} (values : list T) (results : list (Result T E))
  : Result (list T) E :=
  match results with
  | [] => ok values
  | result :: rest =>
      match result with
      | Err error => Err error
      | Ok value => combine_loop (values ++ [value]) rest
      end
  end.

Definition combine {T E} (results : list (Result T E)) : Result (list T) E :=
  combine_loop [] results.

Fixpoint combineWithAllErrors_loop {T E} (values : list T) (errors : list E)
    (results : list (Result T E)) : Result (list T) (list E) :=
  match results with
  | [] => if Nat.eqb (List.length errors) 0 then ok values else err errors
  | result :: rest =>
      match result with
      | Ok value => combineWithAllErrors_loop (values ++ [value]) errors rest
      | Err error => combineWithAllErrors_loop values (errors ++ [error]) rest
      end
  end.

Definition combineWithAllErrors {T E} (results : list (Result T E))
  : Result (list T) (list E) :=
  combineWithAllErrors_loop [] [] results.

Definition safeUnwrap {T E} (result : Result T E) : Completion (Error E) T :=
  match result with
  | Err _ => Throw (new_Error "Attempted to unwrap an Err value")
  | Ok value => Normal value
  end.

Definition mapErr {W X T E F} (result : Result T E) (f : E -> M W X F)
  : M W X (Result T F) :=
  match result with
  | Err error => (e <- f error ;; ret (err e))%js
  | Ok value => ret (Ok value)
  end.

Definition unwrapOr {T E} (result : Result T E) (defaultValue : T) : T :=
  match result with
  | Ok value => value
  | Err _ => defaultValue
  end.

Definition orElse {W X T E F} (result : Result T E)
    (f : E -> M W X (Result T F)) : M W X (Result T F) :=
  match result with
  | Err error => f error
  | Ok value => ret (Ok value)
  end.

Definition match_ {W X T E U} (result : Result T E)
    (okFn : T -> M W X U) (errFn : E -> M W X U) : M W X U :=
  match result with
  | Ok value => okFn value
  | Err error => errFn error
  end.

(** [return isOk(result) ? await f(result.value) : result] *)
Definition asyncAndThen {W X T U E} (result : Result T E)
    (f : T -> M W X (Promise X (Result U E)))
  : M W X (Promise X (Result U E)) :=
  async_function
    match result with
    | Ok value => (p <- f value ;; ret (await_ p (fun r => Normal r)))%js
    | Err error => ret (Fulfilled (Err error))
    end.

(** [return isOk(result) ? ok(await f(result.value)) : result] *)
Definition asyncMap {W X T U E} (result : Result T E)
    (f : T -> M W X (Promise X U)) : M W X (Promise X (Result U E)) :=
  async_function
    match result with
    | Ok value => (p <- f value ;; ret (await_ p (fun u => Normal (ok u))))%js
    | Err error => ret (Fulfilled (Err error))
    end.

(** [asyncMatch], which stands beside these functions in the second
    half of [src/index.ts]:
    [return isOk(result) ? await okFn(result.value)
                         : await errFn(result.error)] *)
Definition asyncMatch {W X T E U} (result : Result T E)
    (okFn : T -> M W X (Promise X U)) (errFn : E -> M W X (Promise X U))
  : M W X (Promise X U) :=
  async_function
    match result with
    | Ok value => (p <- okFn value ;; ret (await_ p (fun u => Normal u)))%js
    | Err error => (p <- errFn error ;; ret (await_ p (fun u => Normal u)))%js
    end.

End Helpers.

(** ** src/index.ts over a store of objects

    The same functions with the objects where JavaScript has them: in a
    store, reached through references, so that a write to a field or to
    an array is a change of the store.  An object literal and an array
    literal allocate; [push] updates the array in place. *)

Module Store.
Import Host.
Local Open Scope js_scope.

Abbreviation loc := nat (only parsing).

Inductive val : Type :=
| VUndef
| VNum (n : Z)
| VStr (s : string)
| VRef (l : loc).

(** A plain object with the fields the library reads and writes; a
    field the literal does not set reads [undefined]. *)
Record object : Type := mkObject {
  kind : val;
  value : val;
  error : val
}.

Inductive cell : Type :=
| Obj (o : object)
| Arr (elems : list val)
| PromiseObj (state : Promise val val)
| ErrorObj (message : string).

Abbreviation heap := (list cell) (only parsing).

(** Every callback and every function below runs on the store and may
    throw a value. *)
Definition JS (A : Type) : Type := M heap val A.

Definition alloc (c : cell) : JS val :=
  fun h => (Normal (VRef (List.length h)), (h ++ [c])%list).

Definition read {A} (g : heap -> A) : JS A :=
  fun h => (Normal (g h), h).

(** [v.field]; TypeScript's types keep [null] and [undefined] out of
    these positions, and any other value without the field reads
    [undefined]. *)
Definition get_field (field : object -> val) (v : val) (h : heap) : val :=
  match v with
  | VRef l =>
      match h !! l with
      | Some (Obj o) => field o
      | _ => VUndef
      end
  | _ => VUndef
  end.

Definition get_elems (v : val) (h : heap) : list val :=
  match v with
  | VRef l =>
      match h !! l with
      | Some (Arr elems) => elems
      | _ => []
      end
  | _ => []
  end.

(** [res instanceof Promise], with the state the promise reaches. *)
Definition instanceof_Promise (v : val) (h : heap) : option (Promise val val) :=
  match v with
  | VRef l =>
      match h !! l with
      | Some (PromiseObj state) => Some state
      | _ => None
      end
  | _ => None
  end.

(** [a === b] *)
Definition strict_eq (a b : val) : bool :=
  match a, b with
  | VUndef, VUndef => true
  | VNum n, VNum m => Z.eqb n m
  | VStr s, VStr t => String.eqb s t
  | VRef l, VRef k => Nat.eqb l k
  | _, _ => false
  end.

(** [arr.push(v)] *)
Definition push (arr : val) (v : val) : JS unit :=
  fun h =>
    match arr with
    | VRef l =>
        match h !! l with
        | Some (Arr elems) => (Normal tt, <[l := Arr (elems ++ [v])]> h)
        | _ => (Normal tt, h)
        end
    | _ => (Normal tt, h)
    end.

(** [p.then(onFulfilled)] on the store: a new promise object, in the
    state it reaches once the reaction has run. *)
Definition then_ (state : Promise val val) (onFulfilled : val -> JS val)
  : JS val :=
  match state with
  | Pending => alloc (PromiseObj Pending)
  | Fulfilled v =>
      fun h =>
        match onFulfilled v h with
        | (Normal b, h') => alloc (PromiseObj (Fulfilled b)) h'
        | (Throw x, h') => alloc (PromiseObj (Rejected x)) h'
        end
  | Rejected reason => alloc (PromiseObj (Rejected reason))
  end.

Definition ok (v : val) : JS val :=
  alloc (Obj {| kind := VStr "ok"; value := v; error := VUndef |}).

Definition err (e : val) : JS val :=
  alloc (Obj {| kind := VStr "err"; value := VUndef; error := e |}).

Definition isOk (result : val) : JS bool :=
  read (fun h => strict_eq (get_field kind result h) (VStr "ok")).

Definition isErr (result : val) : JS bool :=
  read (fun h => strict_eq (get_field kind result h) (VStr "err")).

Definition map (result : val) (f : val -> JS val) : JS val :=
  b <- isOk result ;;
  if b : bool then
    v <- read (get_field value result) ;;
    res <- f v ;;
    p <- read (instanceof_Promise res) ;;
    match p with
    | Some state => then_ state ok
    | None => ok res
    end
  else ret result.

Definition mapErr (result : val) (f : val -> JS val) : JS val :=
  b <- isErr result ;;
  if b : bool then
    e <- read (get_field error result) ;;
    e' <- f e ;;
    err e'
  else ret result.

Definition unwrapOr (result : val) (defaultValue : val) : JS val :=
  b <- isOk result ;;
  if b : bool then read (get_field value result) else ret defaultValue.

Definition andThen (result : val) (f : val -> JS val) : JS val :=
  b <- isOk result ;;
  if b : bool then
    v <- read (get_field value result) ;;
    res <- f v ;;
    p <- read (instanceof_Promise res) ;;
    match p with
    | Some _ => ret res
    | None => ret res
    end
  else ret result.

Definition orElse (result : val) (f : val -> JS val) : JS val :=
  b <- isErr result ;;
  if b : bool then
    e <- read (get_field error result) ;;
    f e
  else ret result.

Definition match_ (result : val) (okFn errFn : val -> JS val) : JS val :=
  b <- isOk result ;;
  if b : bool then
    v <- read (get_field value result) ;;
    res <- okFn v ;;
    p <- read (instanceof_Promise res) ;;
    match p with
    | Some _ => ret res
    | None => ret res
    end
  else
    e <- read (get_field error result) ;;
    res <- errFn e ;;
    p <- read (instanceof_Promise res) ;;
    match p with
    | Some _ => ret res
    | None => ret res
    end.

Fixpoint combine_loop (values : val) (results : list val) : JS val :=
  match results with
  | [] => ok values
  | result :: rest =>
      b <- isErr result ;;
      if b : bool then ret result
      else
        v <- read (get_field value result) ;;
        _ <- push values v ;;
        combine_loop values rest
  end.

Definition combine (results : val) : JS val :=
  values <- alloc (Arr []) ;;
  elems <- read (get_elems results) ;;
  combine_loop values elems.

Fixpoint combineWithAllErrors_loop (values errors : val) (results : list val)
  : JS val :=
  match results with
  | [] =>
      es <- read (get_elems errors) ;;
      if Nat.eqb (List.length es) 0 then ok values else err errors
  | result :: rest =>
      b <- isOk result ;;
      if b : bool then
        v <- read (get_field value result) ;;
        _ <- push values v ;;
        combineWithAllErrors_loop values errors rest
      else
        e <- read (get_field error result) ;;
        _ <- push errors e ;;
        combineWithAllErrors_loop values errors rest
  end.

Definition combineWithAllErrors (results : val) : JS val :=
  values <- alloc (Arr []) ;;
  errors <- alloc (Arr []) ;;
  elems <- read (get_elems results) ;;
  combineWithAllErrors_loop values errors elems.

Definition unsafeUnwrap (result : val) : JS val :=
  b <- isErr result ;;
  if b : bool then
    e <- alloc (ErrorObj "Attempted to unwrap an Err value") ;;
    throw e
  else read (get_field value result).

(** *** Reading the store back *)

(** The object a reference denotes, read back as a [Result]. *)
Definition result_at (h : heap) (v : val) : option (ResultWire.Result val val) :=
  match v with
  | VRef l =>
      match h !! l with
      | Some (Obj o) =>
          if strict_eq (kind o) (VStr "ok") then Some (ResultWire.Ok (value o))
          else if strict_eq (kind o) (VStr "err") then Some (ResultWire.Err (error o))
          else None
      | _ => None
      end
  | _ => None
  end.

(** *** What it means for a cell to be left alone *)

(** The cell [c] at [l] is still there after [m], and a value [m]
    returns satisfies [Q]. *)
Definition keeps {A} (l : loc) (c : cell) (m : JS A) (Q : A -> Prop) : Prop :=
  forall h : heap,
    h !! l = Some c ->
    (m h).2 !! l = Some c /\
    match (m h).1 with
    | Normal a => Q a
    | Throw _ => True
    end.

Definition any {A} : A -> Prop := fun _ => True.

(** A callback that leaves the cell [c] at [l] as it is, whatever else
    it does. *)
Definition leaves (l : loc) (c : cell) (f : val -> JS val) : Prop :=
  forall (v : val) (h : heap), h !! l = Some c -> (f v h).2 !! l = Some c.

End Store.

(** ** The aggregation contract in the specification's words *)

Module Spec.
Import ResultWire.

(** The success partition of a sequence, relative order kept. *)
Fixpoint successes {T E} (rs : list (Result T E)) : list T :=
  match rs with
  | [] => []
  | Ok v :: rest => v :: successes rest
  | Err _ :: rest => successes rest
  end.

(** The failure partition of a sequence, relative order kept. *)
Fixpoint failures {T E} (rs : list (Result T E)) : list E :=
  match rs with
  | [] => []
  | Ok _ :: rest => failures rest
  | Err e :: rest => e :: failures rest
  end.

End Spec.

(** ** Callbacks by the way they answer *)

Module Callbacks.
Import Host.

(** A callback seen as one that answers at once with a value that is
    not a promise. *)
Definition sync {W X A B} (f : A -> M W X B) : A -> M W X (Returned X B) :=
  fun a => (b <- f a ;; ret (Plain b))%js.

(** A callback seen as one that answers with a promise. *)
Definition answering {W X A B} (f : A -> M W X (Promise X B))
  : A -> M W X (Returned X B) :=
  fun a => (p <- f a ;; ret (IsPromise p))%js.

(** A thunk that ends as the completion [c] does, without effect. *)
Definition ending {W X A} (c : Completion X A) : unit -> M W X A :=
  fun _ w => (c, w).

End Callbacks.

(** ** Callbacks of the test suite

    The world of the thunks and of the probe is the number of calls
    made so far. *)

(** A callback that answers with a promise: [async n => n * 2]. *)
Definition async_double : nat -> Host.M unit unit (Host.Returned unit nat) :=
  fun n => Host.ret (Host.IsPromise (Host.Fulfilled (n * 2))).

(** A callback that answers at once: [n => n * 2]. *)
Definition double : nat -> Host.M unit unit (Host.Returned unit nat) :=
  fun n => Host.ret (Host.Plain (n * 2)).

(** A probe: it counts its calls in the world and throws. *)
Definition probe {A B : Type} : A -> Host.M nat string B :=
  fun _ calls => (Host.Throw "Should not be called", S calls).

(** A thunk that returns, one that throws, one that answers with a
    promise that is rejected later. *)
Definition returns_42 : unit -> Host.M nat string (Host.Returned string nat) :=
  fun _ calls => (Host.Normal (Host.Plain 42), S calls).

Definition throws_boom : unit -> Host.M nat string (Host.Returned string nat) :=
  fun _ calls => (Host.Throw "boom", S calls).

Definition rejects_later : unit -> Host.M nat string (Host.Returned string nat) :=
  fun _ calls => (Host.Normal (Host.IsPromise (Host.Rejected "late")), S calls).

(** A store with [ok(5)], [err("E1")] and the array of the two. *)
Definition ok_5 : Store.object :=
  {| Store.kind := Store.VStr "ok";
     Store.value := Store.VNum 5;
     Store.error := Store.VUndef |}.

Definition err_E1 : Store.object :=
  {| Store.kind := Store.VStr "err";
     Store.value := Store.VUndef;
     Store.error := Store.VStr "E1" |}.

Definition store0 : list Store.cell :=
  [Store.Obj ok_5; Store.Obj err_E1;
   Store.Arr [Store.VRef 0; Store.VRef 1]].

(** [v => v * 2] on the store. *)
Definition store_double : Store.val -> Store.JS Store.val :=
  fun v =>
    Host.ret match v with
             | Store.VNum n => Store.VNum (n * 2)
             | _ => Store.VUndef
             end.

(** A callback that hands back a promise: [async n => n * 2], and one
    whose promise is rejected. *)
Definition doubling_promise : nat -> Host.M unit string (Host.Promise string nat) :=
  fun n => Host.ret (Host.Fulfilled (n * 2)).

Definition rejecting_promise : nat -> Host.M unit string (Host.Promise string nat) :=
  fun _ => Host.ret (Host.Rejected "late").

(** A store with an object tagged ['OK'], which is neither tag, and the
    array of it. *)
Definition tagged_OK : Store.object :=
  {| Store.kind := Store.VStr "OK";
     Store.value := Store.VNum 7;
     Store.error := Store.VStr "E7" |}.

Definition store1 : list Store.cell :=
  [Store.Obj tagged_OK; Store.Arr [Store.VRef 0]].

(** * Properties *)

(** ** Inspection *)

Section Inspection.
Import ResultWire.
Context {T E : Type}.

Lemma isOk_Ok (x : T) : isOk (Ok x : Result T E) = true.
Proof. reflexivity. Qed.

Lemma isOk_Err (e : E) : isOk (Err e : Result T E) = false.
Proof. reflexivity. Qed.

Lemma isErr_Ok (x : T) : isErr (Ok x : Result T E) = false.
Proof. reflexivity. Qed.

Lemma isErr_Err (e : E) : isErr (Err e : Result T E) = true.
Proof. reflexivity. Qed.

Lemma isErr_negb_isOk (r : Result T E) : isErr r = negb (isOk r).
Proof. destruct r; reflexivity. Qed.

(** C8: on every Result exactly one of [isOk] and [isErr] answers
    true, each being the negation of the other; a result built by
    [ok] is [isOk] and not [isErr], one built by [err] is [isErr] and
    not [isOk]. *)
Theorem isOk_isErr_exclusive_exhaustive :
  (forall r : Result T E, xorb (isOk r) (isErr r) = true) /\
  (forall r : Result T E, isErr r = negb (isOk r)) /\
  (forall x : T, isOk (ok x : Result T E) = true /\
                 isErr (ok x : Result T E) = false) /\
  (forall e : E, isErr (err e : Result T E) = true /\
                 isOk (err e : Result T E) = false).
Proof.
  repeat split.
  - intros [x | e]; reflexivity.
  - apply isErr_negb_isOk.
Qed.

End Inspection.

(** ** Aggregation *)

Section Aggregation.
Import ResultWire.
Context {T E : Type}.
Implicit Types (rs rest : list (Result T E)) (vs values : list T)
  (es errors : list E).

(** Every sequence is a run of successes, followed or not by a first
    failure and whatever comes after it. *)
Lemma results_split rs :
  (exists vs, rs = List.map Ok vs) \/
  (exists vs e rest, rs = (List.map Ok vs ++ Err e :: rest)%list).
Proof.
  induction rs as [| [v | e] rs IH]; simpl.
  - left. exists []. reflexivity.
  - destruct IH as [[vs ->] | (vs & e & rest & ->)].
    + left. exists (v :: vs). reflexivity.
    + right. exists (v :: vs), e, rest. reflexivity.
  - right. exists [], e, rs. reflexivity.
Qed.

Lemma combine_loop_successes values vs rest :
  combine_loop values (List.map Ok vs ++ rest)
  = combine_loop (values ++ vs) rest.
Proof.
  revert values. induction vs as [| v vs IH]; intros values; simpl.
  - by rewrite app_nil_r.
  - rewrite IH. by rewrite <- app_assoc.
Qed.

Lemma combine_successes_then_failure vs e rest :
  combine (List.map Ok vs ++ Err e :: rest) = Err e.
Proof. unfold combine. by rewrite combine_loop_successes. Qed.

Lemma combine_all_successes vs :
  combine (List.map Ok vs : list (Result T E)) = Ok vs.
Proof.
  unfold combine.
  rewrite <- (app_nil_r (List.map Ok vs)), combine_loop_successes.
  reflexivity.
Qed.

Lemma helpers_combine_loop_eq values rs :
  Helpers.combine_loop values rs = combine_loop values rs.
Proof.
  revert values. induction rs as [| [v | e] rs IH]; intros values; simpl; auto.
Qed.

Lemma helpers_combine_eq rs : Helpers.combine rs = combine rs.
Proof. apply helpers_combine_loop_eq. Qed.

(** C1: [combine] returns the first failure of the sequence, its
    payload as it was, whatever follows it; on a sequence of successes
    it returns the success of their payloads in order; on the empty
    sequence the success of the empty sequence.  Every sequence is of
    one of the two shapes, and [combine] of [helpers.ts] is the same
    function. *)
Theorem combine_first_failure_else_values :
  (forall vs e rest, combine (List.map Ok vs ++ Err e :: rest) = Err e) /\
  (forall vs, combine (List.map Ok vs : list (Result T E)) = Ok vs) /\
  combine ([] : list (Result T E)) = Ok [] /\
  (forall rs,
      (exists vs, rs = List.map Ok vs) \/
      (exists vs e rest, rs = (List.map Ok vs ++ Err e :: rest)%list)) /\
  (forall rs, Helpers.combine rs = combine rs).
Proof.
  split; [exact combine_successes_then_failure |].
  split; [exact combine_all_successes |].
  split; [reflexivity |].
  split; [exact results_split | exact helpers_combine_eq].
Qed.

Lemma combineWithAllErrors_loop_spec values errors rs :
  combineWithAllErrors_loop values errors rs
  = if Nat.eqb (List.length (errors ++ Spec.failures rs)) 0
    then Ok (values ++ Spec.successes rs)
    else Err (errors ++ Spec.failures rs).
Proof.
  revert values errors.
  induction rs as [| [v | e] rs IH]; intros values errors; simpl.
  - by rewrite !app_nil_r.
  - rewrite IH. by rewrite <- app_assoc.
  - rewrite IH. by rewrite <- app_assoc.
Qed.

Lemma failures_nil_iff rs : Spec.failures rs = [] <-> existsb isErr rs = false.
Proof.
  induction rs as [| [v | e] rs IH]; simpl; [done | exact IH | done].
Qed.

Lemma combineWithAllErrors_spec rs :
  combineWithAllErrors rs
  = if existsb isErr rs then Err (Spec.failures rs)
    else Ok (Spec.successes rs).
Proof.
  unfold combineWithAllErrors. rewrite combineWithAllErrors_loop_spec.
  simpl. destruct (existsb isErr rs) eqn:Hex.
  - destruct (Spec.failures rs) eqn:Hf; [| reflexivity].
    apply failures_nil_iff in Hf. congruence.
  - apply failures_nil_iff in Hex. by rewrite Hex.
Qed.

Lemma helpers_combineWithAllErrors_loop_eq values errors rs :
  Helpers.combineWithAllErrors_loop values errors rs
  = combineWithAllErrors_loop values errors rs.
Proof.
  revert values errors.
  induction rs as [| [v | e] rs IH]; intros values errors; simpl; auto.
Qed.

(** C2: [combineWithAllErrors] goes through the whole sequence: when
    some element is a failure it returns the failure of all the
    failure payloads in their order, the success payloads dropped;
    when none is, the success of all the success payloads in their
    order; on the empty sequence the success of the empty sequence.
    [combineWithAllErrors] of [helpers.ts] is the same function. *)
Theorem combineWithAllErrors_partitions :
  (forall rs,
      combineWithAllErrors rs
      = if existsb isErr rs then Err (Spec.failures rs)
        else Ok (Spec.successes rs)) /\
  combineWithAllErrors ([] : list (Result T E)) = Ok [] /\
  (forall rs, Helpers.combineWithAllErrors rs = combineWithAllErrors rs).
Proof.
  split; [exact combineWithAllErrors_spec |].
  split; [reflexivity |].
  intros rs. apply helpers_combineWithAllErrors_loop_eq.
Qed.

Lemma combine_spec rs :
  combine rs
  = if forallb isOk rs then Ok (Spec.successes rs)
    else match Spec.failures rs with
         | e :: _ => Err e
         | [] => Ok (Spec.successes rs)
         end.
Proof.
  destruct (results_split rs) as [[vs ->] | (vs & e & rest & ->)].
  - rewrite combine_all_successes.
    assert (Spec.successes (List.map Ok vs : list (Result T E)) = vs) as ->.
    { induction vs as [| v vs IH]; simpl; congruence. }
    assert (Spec.failures (List.map Ok vs : list (Result T E)) = []) as ->.
    { induction vs as [| v vs IH]; simpl; congruence. }
    by destruct (forallb isOk _).
  - rewrite combine_successes_then_failure.
    assert (forallb isOk (List.map Ok vs ++ Err e :: rest) = false) as ->.
    { induction vs as [| v vs IH]; simpl; auto. }
    assert (Spec.failures (List.map Ok vs ++ Err e :: rest)
            = e :: Spec.failures rest) as ->; [| done].
    induction vs as [| v vs IH]; simpl; auto.
Qed.

Lemma forallb_isOk_existsb_isErr rs :
  existsb isErr rs = negb (forallb isOk rs).
Proof.
  induction rs as [| [v | e] rs IH]; simpl; auto.
Qed.

(** C10: [combine] and [combineWithAllErrors] are successes on the
    same sequences, those whose elements are all successes, and on
    these they return the same success: the payloads in order. *)
Theorem combine_combineWithAllErrors_agree_on_success :
  forall rs,
    isOk (combine rs) = forallb isOk rs /\
    isOk (combineWithAllErrors rs) = forallb isOk rs /\
    (forall vs, combine rs = Ok vs <-> combineWithAllErrors rs = Ok vs) /\
    (forallb isOk rs = true ->
     combine rs = Ok (Spec.successes rs) /\
     combineWithAllErrors rs = Ok (Spec.successes rs)).
Proof.
  intros rs.
  rewrite combine_spec, combineWithAllErrors_spec, forallb_isOk_existsb_isErr.
  destruct (forallb isOk rs) eqn:Hall; simpl.
  - repeat split; try done; by intros [= <-].
  - assert (existsb isErr rs = true) as Hex
        by (by rewrite forallb_isOk_existsb_isErr, Hall).
    destruct (Spec.failures rs) as [| e es] eqn:Hf.
    { apply failures_nil_iff in Hf. congruence. }
    repeat split; try done.
Qed.

End Aggregation.

(** ** Transformation and chaining *)

Section Combinators.
Import Host ResultWire.
Context {W X T U E : Type}.

Lemma andThen_Ok (x : T) (f : T -> M W X (Returned X (Result U E))) w :
  andThen (Ok x) f w = f x w.
Proof.
  unfold andThen, bind. destruct (f x w) as [[[r | p] | t] w']; reflexivity.
Qed.

(** C3: on a success [andThen] is the call [f x] itself, result and
    effects, whatever [f] hands back, with nothing wrapped around it;
    on a failure it is that failure, and no [f] has run: the world is
    as it was and nothing is thrown, for every [f].  The same holds of
    [andThen] of [helpers.ts]. *)
Theorem andThen_success_is_call_failure_passes :
  (forall (x : T) (f : T -> M W X (Returned X (Result U E))) (w : W),
      andThen (ok x) f w = f x w) /\
  (forall (e : E) (f : T -> M W X (Returned X (Result U E))) (w : W),
      andThen (err e) f w = (Normal (Plain (err e)), w)) /\
  (forall (x : T) (f : T -> M W X (Result U E)) (w : W),
      Helpers.andThen (ok x) f w = f x w) /\
  (forall (e : E) (f : T -> M W X (Result U E)) (w : W),
      Helpers.andThen (err e) f w = (Normal (err e), w)).
Proof.
  split; [exact andThen_Ok |]. repeat split.
Qed.

Lemma map_Ok_plain (x : T) (f : T -> M W X (Returned X U)) w w' u :
  f x w = (Normal (Plain u), w') ->
  map (E:=E) (Ok x) f w = (Normal (Plain (Ok u)), w').
Proof. intros Hf. unfold map, bind. by rewrite Hf. Qed.

Lemma map_Ok_promise (x : T) (f : T -> M W X (Returned X U)) w p w' :
  f x w = (Normal (IsPromise p), w') ->
  map (E:=E) (Ok x) f w
  = (Normal (IsPromise (then_ p (fun v => Normal (ok v)))), w').
Proof. intros Hf. unfold map, bind. by rewrite Hf. Qed.

(** C4, as the code has it: when [f x] returns a value that is not a
    promise, [map] of the success of [x] is the success of that value;
    when [f x] returns a promise [p], [map] returns the promise
    [p.then(ok)] and no other: fulfilled with the success of the value
    when [p] is fulfilled, rejected with the same reason when [p] is
    rejected, pending while [p] is; on a failure [map] is that failure,
    payload untouched, and no [f] has run.  [map] of [helpers.ts] wraps
    whatever [f x] returns. *)
Theorem map_success_applies_failure_passes :
  (forall (x : T) (f : T -> M W X (Returned X U)) (w w' : W) (u : U),
      f x w = (Normal (Plain u), w') ->
      map (E:=E) (ok x) f w = (Normal (Plain (ok u)), w')) /\
  (forall (x : T) (f : T -> M W X (Returned X U)) (w w' : W) p,
      f x w = (Normal (IsPromise p), w') ->
      map (E:=E) (ok x) f w
      = (Normal (IsPromise (then_ p (fun v => Normal (ok v)))), w') /\
      then_ p (fun v => Normal (ok v : Result U E))
      = match p with
        | Pending => Pending
        | Fulfilled v => Fulfilled (ok v)
        | Rejected reason => Rejected reason
        end) /\
  (forall (e : E) (f : T -> M W X (Returned X U)) (w : W),
      map (err e) f w = (Normal (Plain (err e)), w)) /\
  (forall (x : T) (f : T -> M W X U) (w w' : W) (u : U),
      f x w = (Normal u, w') ->
      Helpers.map (E:=E) (ok x) f w = (Normal (ok u), w')) /\
  (forall (e : E) (f : T -> M W X U) (w : W),
      Helpers.map (err e) f w = (Normal (err e), w)).
Proof.
  split; [exact map_Ok_plain |].
  split.
  { intros x f w w' p Hf. split; [by apply map_Ok_promise |].
    by destruct p. }
  split; [done |].
  split; [| done].
  intros x f w w' u Hf. unfold Helpers.map, ok, bind. by rewrite Hf.
Qed.

End Combinators.

(** C4 as it is written fails for a callback that answers with a
    promise: [map] then returns a promise, not a Result, where
    [helpers.ts] returns the success wrapping the promise. *)
Lemma map_success_of_async_is_promise :
  ResultWire.map (E:=string) (ResultWire.ok 21) async_double tt
  = (Host.Normal (Host.IsPromise (Host.Fulfilled (ResultWire.ok 42))), tt) /\
  Helpers.map (E:=string) (ResultWire.ok 21) async_double tt
  = (Host.Normal (ResultWire.ok (Host.IsPromise (Host.Fulfilled 42))), tt) /\
  ~ (exists r : ResultWire.Result nat string,
        ResultWire.map (ResultWire.ok 21) async_double tt
        = (Host.Normal (Host.Plain r), tt)).
Proof.
  split; [reflexivity |]. split; [reflexivity |].
  intros [r Hr]. discriminate Hr.
Qed.

Lemma map_success_applies_failure_passes_witness :
  ResultWire.map (E:=string) (ResultWire.ok 21) double tt
  = (Host.Normal (Host.Plain (ResultWire.ok 42)), tt) /\
  ResultWire.map (E:=string) (ResultWire.ok 21) async_double tt
  = (Host.Normal (Host.IsPromise (Host.Fulfilled (ResultWire.ok 42))), tt) /\
  ResultWire.map (E:=string) (ResultWire.ok 21)
    (Callbacks.answering rejecting_promise) tt
  = (Host.Normal (Host.IsPromise (Host.Rejected "late")), tt).
Proof.
  split; [| split].
  - exact (proj1 (map_success_applies_failure_passes
                    (W:=unit) (X:=unit) (T:=nat) (U:=nat) (E:=string))
             21 double tt tt 42 eq_refl).
  - exact (proj1 (proj1 (proj2 (map_success_applies_failure_passes
                                  (W:=unit) (X:=unit) (T:=nat) (U:=nat)
                                  (E:=string)))
                    21 async_double tt tt (Host.Fulfilled 42) eq_refl)).
  - exact (proj1 (proj1 (proj2 (map_success_applies_failure_passes
                                  (W:=unit) (X:=string) (T:=nat) (U:=nat)
                                  (E:=string)))
                    21 (Callbacks.answering rejecting_promise) tt tt
                    (Host.Rejected "late") eq_refl)).
Defined.

(** On a failure the probe of the test suite is not called by [map] nor
    by [andThen]: no call is counted and nothing is thrown. *)
Lemma probe_not_called_on_failure :
  ResultWire.map (U:=nat) (ResultWire.err "E1" : ResultWire.Result nat string)
    probe 0
  = (Host.Normal (Host.Plain (ResultWire.err "E1")), 0) /\
  ResultWire.andThen (U:=nat)
    (ResultWire.err "E1" : ResultWire.Result nat string) probe 0
  = (Host.Normal (Host.Plain (ResultWire.err "E1")), 0) /\
  ResultWire.map (U:=nat) (E:=string) (ResultWire.ok 1) probe 0
  = (Host.Throw "Should not be called", 1).
Proof. repeat split. Qed.

(** ** Unsafe extraction *)

Section Unwrap.
Import Host ResultWire.
Context {T E : Type}.

(** C5: [unsafeUnwrap] returns the payload of a success; on a failure
    it throws an [Error] whose message is the fixed text and which
    carries no cause: the same error whatever the payload was.
    [safeUnwrap] of [helpers.ts] is the same function. *)
Theorem unsafeUnwrap_returns_or_throws_fixed_error :
  (forall x : T, unsafeUnwrap (ok x : Result T E) = Normal x) /\
  (forall e : E,
      unsafeUnwrap (err e : Result T E)
      = Throw {| message := "Attempted to unwrap an Err value";
                 cause := None |}) /\
  (forall e e' : E,
      unsafeUnwrap (err e : Result T E) = unsafeUnwrap (err e')) /\
  (forall r : Result T E, Helpers.safeUnwrap r = unsafeUnwrap r).
Proof. repeat split. Qed.

End Unwrap.

(** ** Adapters *)

Section Adapters.
Import Host ResultWire.
Context {W X T : Type}.

Lemma fromPromise_never_rejects (p : Promise X T) (r : X) :
  fromPromise p <> Rejected r.
Proof. destruct p; discriminate. Qed.

(** C6: [fromThrowable] runs [f] there and then, the effects of [f]
    being its own: when [f] returns a value that is not a promise the
    result is the success of that value; when [f] throws, the failure
    of what was thrown, and nothing is thrown further; when [f]
    returns a promise the result is a promise, fulfilled with the
    success of the value when the first is fulfilled and with the
    failure of the reason when it is rejected, never rejected itself.
    The choice is made on what [f] returned alone.  [fromThrowable]
    of [helpers.ts] has the first two cases. *)
Theorem fromThrowable_captures :
  (forall (f : unit -> M W X (Returned X T)) (w w' : W) (v : T),
      f tt w = (Normal (Plain v), w') ->
      fromThrowable f w = (Normal (Plain (ok v)), w')) /\
  (forall (f : unit -> M W X (Returned X T)) (w w' : W) (e : X),
      f tt w = (Throw e, w') ->
      fromThrowable f w = (Normal (Plain (err e)), w')) /\
  (forall (f : unit -> M W X (Returned X T)) (w w' : W) p,
      f tt w = (Normal (IsPromise p), w') ->
      exists q,
        fromThrowable f w = (Normal (IsPromise q), w') /\
        (forall v, p = Fulfilled v -> q = Fulfilled (ok v)) /\
        (forall r, p = Rejected r -> q = Fulfilled (err r)) /\
        (forall r, q <> Rejected r)) /\
  (forall (f : unit -> M W X T) (w w' : W) (v : T),
      f tt w = (Normal v, w') ->
      Helpers.fromThrowable f w = (Normal (ok v), w')) /\
  (forall (f : unit -> M W X T) (w w' : W) (e : X),
      f tt w = (Throw e, w') ->
      Helpers.fromThrowable f w = (Normal (err e), w')).
Proof.
  repeat split.
  - intros f w w' v Hf. unfold fromThrowable, tryCatch, bind. by rewrite Hf.
  - intros f w w' e Hf. unfold fromThrowable, tryCatch, bind. by rewrite Hf.
  - intros f w w' p Hf. eexists. split.
    { unfold fromThrowable, tryCatch, bind. by rewrite Hf. }
    split; [by intros v -> |]. split; [by intros r -> |].
    apply fromPromise_never_rejects.
  - intros f w w' v Hf.
    unfold Helpers.fromThrowable, tryCatch, bind. by rewrite Hf.
  - intros f w w' e Hf.
    unfold Helpers.fromThrowable, tryCatch, bind. by rewrite Hf.
Qed.

(** C7: [fromPromise] gives a promise fulfilled with the success of
    the value when the source is fulfilled, fulfilled with the failure
    of the reason when the source is rejected, and rejected in no
    case; while the source stays pending so does the result. *)
Theorem fromPromise_settles_as_result :
  (forall v : T, fromPromise (Fulfilled v : Promise X T) = Fulfilled (ok v)) /\
  (forall r : X, fromPromise (Rejected r : Promise X T) = Fulfilled (err r)) /\
  (forall (p : Promise X T) (r : X), fromPromise p <> Rejected r) /\
  fromPromise (Pending : Promise X T) = Pending.
Proof. repeat split. apply fromPromise_never_rejects. Qed.

End Adapters.

Lemma fromThrowable_captures_witness :
  ResultWire.fromThrowable returns_42 0
  = (Host.Normal (Host.Plain (ResultWire.ok 42)), 1) /\
  ResultWire.fromThrowable throws_boom 0
  = (Host.Normal (Host.Plain (ResultWire.err "boom")), 1) /\
  (exists q,
      ResultWire.fromThrowable rejects_later 0
      = (Host.Normal (Host.IsPromise q), 1) /\
      q = Host.Fulfilled (ResultWire.err "late")).
Proof.
  destruct (fromThrowable_captures (W:=nat) (X:=string) (T:=nat))
    as (Hret & Hthrow & Hasync & _).
  split; [apply Hret; reflexivity |].
  split; [apply Hthrow; reflexivity |].
  destruct (Hasync rejects_later 0 1 (Host.Rejected "late") eq_refl)
    as (q & Hq & _ & Hrej & _).
  exists q. split; [exact Hq |]. by apply Hrej.
Defined.

(** ** Mutation *)

Section Frame.
Import Host Store.
Local Open Scope js_scope.

Variables (l : loc) (c : cell).

Lemma keeps_weaken {A} (m : JS A) (Q R : A -> Prop) :
  keeps l c m Q -> (forall a, Q a -> R a) -> keeps l c m R.
Proof.
  intros Hm HQR h Hl. destruct (Hm h Hl) as [Hkeep HQ]. split; [done |].
  destruct (m h).1; auto.
Qed.

Lemma keeps_ret {A} (a : A) (Q : A -> Prop) : Q a -> keeps l c (ret a) Q.
Proof. intros HQ h Hl. by split. Qed.

Lemma keeps_throw {A} (x : val) (Q : A -> Prop) : keeps l c (throw x) Q.
Proof. intros h Hl. by split. Qed.

Lemma keeps_read {A} (g : heap -> A) : keeps l c (read g) any.
Proof. intros h Hl. by split. Qed.

Lemma keeps_bind {A B} (m : JS A) (k : A -> JS B) (Q : A -> Prop)
    (R : B -> Prop) :
  keeps l c m Q -> (forall a, Q a -> keeps l c (k a) R) ->
  keeps l c (a <- m ;; k a) R.
Proof.
  intros Hm Hk h Hl. destruct (Hm h Hl) as [Hkeep HQ]. unfold bind.
  destruct (m h) as [[a | x] h']; simpl in *; [| by split].
  by apply Hk.
Qed.

(** A cell just allocated is not the cell at [l]. *)
Lemma keeps_alloc (c' : cell) : keeps l c (alloc c') (fun v => v <> VRef l).
Proof.
  intros h Hl. simpl. split.
  - by apply lookup_app_l_Some.
  - intros [= Heq]. apply lookup_lt_Some in Hl. lia.
Qed.

Lemma keeps_push (arr v : val) : arr <> VRef l -> keeps l c (push arr v) any.
Proof.
  intros Hne h Hl. unfold push.
  destruct arr as [| | | k]; try by split.
  destruct (h !! k) as [[| elems | |] |] eqn:Hk; try by split.
  split; [| done]. cbn [snd].
  rewrite list_lookup_insert_ne; [done | congruence].
Qed.

Lemma keeps_ok (v : val) : keeps l c (ok v) (fun r => r <> VRef l).
Proof. apply keeps_alloc. Qed.

Lemma keeps_err (e : val) : keeps l c (err e) (fun r => r <> VRef l).
Proof. apply keeps_alloc. Qed.

Lemma keeps_then_ (state : Promise val val) (onFulfilled : val -> JS val) :
  (forall v, keeps l c (onFulfilled v) any) ->
  keeps l c (then_ state onFulfilled) (fun r => r <> VRef l).
Proof.
  intros Hcb. destruct state as [| v | reason]; simpl;
    try apply keeps_alloc.
  intros h Hl. destruct (Hcb v h Hl) as [Hkeep _].
  destruct (onFulfilled v h) as [[b | x] h']; by apply keeps_alloc.
Qed.

Lemma leaves_keeps (f : val -> JS val) :
  leaves l c f -> forall v, keeps l c (f v) any.
Proof.
  intros Hf v h Hl. split; [by apply Hf |]. by destruct (f v h).1.
Qed.

Ltac keeps_step :=
  first
    [ eapply keeps_bind; [apply keeps_read | intros ? _]
    | apply keeps_ret; exact I
    | eapply keeps_weaken; [apply keeps_read | done] ].

Lemma keeps_map (result : val) (f : val -> JS val) :
  (forall v, keeps l c (f v) any) -> keeps l c (map result f) any.
Proof.
  intros Hf. unfold map, isOk. keeps_step.
  destruct a; [| keeps_step]. keeps_step.
  eapply keeps_bind; [apply Hf | intros res _]. keeps_step.
  destruct a0 as [state |].
  - eapply keeps_weaken; [apply keeps_then_ | done].
    intros v. eapply keeps_weaken; [apply keeps_ok | done].
  - eapply keeps_weaken; [apply keeps_ok | done].
Qed.

Lemma keeps_mapErr (result : val) (f : val -> JS val) :
  (forall v, keeps l c (f v) any) -> keeps l c (mapErr result f) any.
Proof.
  intros Hf. unfold mapErr, isErr. keeps_step.
  destruct a; [| keeps_step]. keeps_step.
  eapply keeps_bind; [apply Hf | intros e' _].
  eapply keeps_weaken; [apply keeps_err | done].
Qed.

Lemma keeps_unwrapOr (result defaultValue : val) :
  keeps l c (unwrapOr result defaultValue) any.
Proof.
  unfold unwrapOr, isOk. keeps_step. destruct a; keeps_step.
Qed.

Lemma keeps_andThen (result : val) (f : val -> JS val) :
  (forall v, keeps l c (f v) any) -> keeps l c (andThen result f) any.
Proof.
  intros Hf. unfold andThen, isOk. keeps_step.
  destruct a; [| keeps_step]. keeps_step.
  eapply keeps_bind; [apply Hf | intros res _]. keeps_step.
  destruct a0; keeps_step.
Qed.

Lemma keeps_orElse (result : val) (f : val -> JS val) :
  (forall v, keeps l c (f v) any) -> keeps l c (orElse result f) any.
Proof.
  intros Hf. unfold orElse, isErr. keeps_step.
  destruct a; [| keeps_step]. keeps_step. apply Hf.
Qed.

Lemma keeps_match_ (result : val) (okFn errFn : val -> JS val) :
  (forall v, keeps l c (okFn v) any) -> (forall v, keeps l c (errFn v) any) ->
  keeps l c (match_ result okFn errFn) any.
Proof.
  intros Hok Herr. unfold match_, isOk. keeps_step.
  destruct a; keeps_step.
  - eapply keeps_bind; [apply Hok | intros res _]. keeps_step.
    destruct a0; keeps_step.
  - eapply keeps_bind; [apply Herr | intros res _]. keeps_step.
    destruct a0; keeps_step.
Qed.

Lemma keeps_combine_loop (values : val) (results : list val) :
  values <> VRef l -> keeps l c (combine_loop values results) any.
Proof.
  intros Hne. induction results as [| result rest IH]; simpl.
  - eapply keeps_weaken; [apply keeps_ok | done].
  - unfold isErr. keeps_step. destruct a; [keeps_step |]. keeps_step.
    eapply keeps_bind; [by apply keeps_push | intros _ _]. exact IH.
Qed.

Lemma keeps_combine (results : val) : keeps l c (combine results) any.
Proof.
  unfold combine.
  eapply keeps_bind; [apply keeps_alloc | intros values Hne]. keeps_step.
  by apply keeps_combine_loop.
Qed.

Lemma keeps_combineWithAllErrors_loop (values errors : val)
    (results : list val) :
  values <> VRef l -> errors <> VRef l ->
  keeps l c (combineWithAllErrors_loop values errors results) any.
Proof.
  intros Hv He. induction results as [| result rest IH]; simpl.
  - keeps_step. destruct (Nat.eqb _ _).
    + eapply keeps_weaken; [apply keeps_ok | done].
    + eapply keeps_weaken; [apply keeps_err | done].
  - unfold isOk. keeps_step. destruct a; keeps_step.
    + eapply keeps_bind; [by apply keeps_push | intros _ _]. exact IH.
    + eapply keeps_bind; [by apply keeps_push | intros _ _]. exact IH.
Qed.

Lemma keeps_combineWithAllErrors (results : val) :
  keeps l c (combineWithAllErrors results) any.
Proof.
  unfold combineWithAllErrors.
  eapply keeps_bind; [apply keeps_alloc | intros values Hv].
  eapply keeps_bind; [apply keeps_alloc | intros errors He]. keeps_step.
  by apply keeps_combineWithAllErrors_loop.
Qed.

Lemma keeps_unsafeUnwrap (result : val) :
  keeps l c (unsafeUnwrap result) any.
Proof.
  unfold unsafeUnwrap, isErr. keeps_step. destruct a; [| keeps_step].
  eapply keeps_bind; [apply keeps_alloc | intros e _]. apply keeps_throw.
Qed.

End Frame.

(** C9: no combinator writes to an object that is already there.  Take
    any cell of the store, the input Result among them: after [map],
    [mapErr], [andThen], [orElse] and [match] it is the same cell, as
    long as the callbacks themselves leave it alone; after [unwrapOr],
    [combine], [combineWithAllErrors] and [unsafeUnwrap] it is the same
    cell without condition.  What is written is written to objects and
    arrays allocated during the call.  Where no transformation applies,
    [map] and [mapErr] return the reference they were given and the
    store is as it was. *)
Theorem no_combinator_mutates (h : list Store.cell) (l : nat) (c : Store.cell) :
  h !! l = Some c ->
  (forall result f, Store.leaves l c f ->
      (Store.map result f h).2 !! l = Some c) /\
  (forall result f, Store.leaves l c f ->
      (Store.mapErr result f h).2 !! l = Some c) /\
  (forall result f, Store.leaves l c f ->
      (Store.andThen result f h).2 !! l = Some c) /\
  (forall result f, Store.leaves l c f ->
      (Store.orElse result f h).2 !! l = Some c) /\
  (forall result okFn errFn, Store.leaves l c okFn -> Store.leaves l c errFn ->
      (Store.match_ result okFn errFn h).2 !! l = Some c) /\
  (forall result defaultValue,
      (Store.unwrapOr result defaultValue h).2 !! l = Some c) /\
  (forall results, (Store.combine results h).2 !! l = Some c) /\
  (forall results, (Store.combineWithAllErrors results h).2 !! l = Some c) /\
  (forall result, (Store.unsafeUnwrap result h).2 !! l = Some c) /\
  (forall result f,
      (Store.isOk result h).1 = Host.Normal false ->
      Store.map result f h = (Host.Normal result, h)) /\
  (forall result f,
      (Store.isErr result h).1 = Host.Normal false ->
      Store.mapErr result f h = (Host.Normal result, h)).
Proof.
  intros Hl. repeat split.
  - intros result f Hf. by apply keeps_map; [apply leaves_keeps |].
  - intros result f Hf. by apply keeps_mapErr; [apply leaves_keeps |].
  - intros result f Hf. by apply keeps_andThen; [apply leaves_keeps |].
  - intros result f Hf. by apply keeps_orElse; [apply leaves_keeps |].
  - intros result okFn errFn Hok Herr.
    by apply keeps_match_; [apply leaves_keeps | apply leaves_keeps |].
  - intros result defaultValue. by apply keeps_unwrapOr.
  - intros results. by apply keeps_combine.
  - intros results. by apply keeps_combineWithAllErrors.
  - intros result. by apply keeps_unsafeUnwrap.
  - intros result f. unfold Store.map, Store.isOk, Store.read, Host.bind.
    simpl. by intros [= ->].
  - intros result f. unfold Store.mapErr, Store.isErr, Store.read, Host.bind.
    simpl. by intros [= ->].
Qed.

Lemma no_combinator_mutates_witness :
  store0 !! 0 = Some (Store.Obj ok_5) /\
  (Store.map (Store.VRef 0) store_double store0).2 !! 0
  = Some (Store.Obj ok_5) /\
  (Store.combine (Store.VRef 2) store0).2 !! 0 = Some (Store.Obj ok_5) /\
  (Store.combineWithAllErrors (Store.VRef 2) store0).2 !! 0
  = Some (Store.Obj ok_5).
Proof.
  split; [reflexivity |].
  destruct (no_combinator_mutates store0 0 (Store.Obj ok_5) eq_refl)
    as (Hmap & _ & _ & _ & _ & _ & Hcombine & Hall & _).
  split; [| split; [apply Hcombine | apply Hall]].
  apply Hmap. intros v h Hh. exact Hh.
Defined.

Lemma combine_combineWithAllErrors_agree_on_success_witness :
  forallb ResultWire.isOk
    [ResultWire.Ok 1; ResultWire.Ok 2 : ResultWire.Result nat string] = true /\
  ResultWire.combine
    [ResultWire.Ok 1; ResultWire.Ok 2 : ResultWire.Result nat string]
  = ResultWire.Ok [1; 2] /\
  ResultWire.combineWithAllErrors
    [ResultWire.Ok 1; ResultWire.Ok 2 : ResultWire.Result nat string]
  = ResultWire.Ok [1; 2].
Proof.
  split; [reflexivity |].
  apply (combine_combineWithAllErrors_agree_on_success
           [ResultWire.Ok 1; ResultWire.Ok 2]).
  reflexivity.
Defined.

(** ** The store embedding against the embedding by values *)

Section Refinement.
Import Host Store.
Implicit Types (h : list cell) (v : val) (r : ResultWire.Result val val).

Lemma strict_eq_VStr (a : val) (s : string) :
  strict_eq a (VStr s) = true -> a = VStr s.
Proof.
  destruct a as [| n | t | k]; simpl; try discriminate.
  intros Heq. apply String.eqb_eq in Heq. by subst.
Qed.

Lemma result_at_inv h v r :
  result_at h v = Some r ->
  exists k o,
    v = VRef k /\ h !! k = Some (Obj o) /\
    match r with
    | ResultWire.Ok x => kind o = VStr "ok" /\ value o = x
    | ResultWire.Err e => kind o = VStr "err" /\ error o = e
    end.
Proof.
  unfold result_at. destruct v as [| | | k]; try discriminate.
  destruct (h !! k) as [[o | | |] |] eqn:Hk; try discriminate.
  destruct (strict_eq (kind o) (VStr "ok")) eqn:Hok.
  - intros [= <-]. apply strict_eq_VStr in Hok. by exists k, o.
  - destruct (strict_eq (kind o) (VStr "err")) eqn:Herr; [| discriminate].
    intros [= <-]. apply strict_eq_VStr in Herr. by exists k, o.
Qed.

(** The tests read the tag of the object as the tests by value do. *)
Lemma isOk_refines h v r :
  result_at h v = Some r -> isOk v h = (Normal (ResultWire.isOk r), h).
Proof.
  intros (k & o & -> & Hk & Hr)%result_at_inv. unfold isOk, read. simpl.
  rewrite Hk. by destruct r; destruct Hr as [-> _].
Qed.

Lemma isErr_refines h v r :
  result_at h v = Some r -> isErr v h = (Normal (ResultWire.isErr r), h).
Proof.
  intros (k & o & -> & Hk & Hr)%result_at_inv. unfold isErr, read. simpl.
  rewrite Hk. by destruct r; destruct Hr as [-> _].
Qed.

Lemma ok_refines h x :
  exists v, ok x h = (Normal v, h ++ [Obj (mkObject (VStr "ok") x VUndef)]) /\
            result_at (ok x h).2 v = Some (ResultWire.Ok x).
Proof.
  eexists. split; [reflexivity |]. simpl.
  by rewrite lookup_app_r, Nat.sub_diag.
Qed.

Lemma result_at_alloc h c v r :
  result_at h v = Some r -> result_at (h ++ [c]) v = Some r.
Proof.
  unfold result_at. destruct v as [| | | k]; try discriminate.
  destruct (h !! k) as [c' |] eqn:Hk; [| discriminate].
  by rewrite (lookup_app_l_Some _ _ _ _ Hk).
Qed.

Lemma result_at_push h k acc x v r :
  h !! k = Some (Arr acc) -> result_at h v = Some r ->
  result_at (<[k := Arr (acc ++ [x])]> h) v = Some r.
Proof.
  intros Hk Hv. destruct (result_at_inv _ _ _ Hv) as (j & o & -> & Hj & _).
  unfold result_at in *. rewrite list_lookup_insert_ne; [done |].
  intros ->. congruence.
Qed.

(** The loop of [combine] on the store computes what the loop by values
    computes: on a failure it returns the very reference of the failing
    element, otherwise a new success whose payload is the array of the
    payloads.  Every Result of the store reads back as before. *)
Lemma combine_loop_refines (elems : list val)
    (rs : list (ResultWire.Result val val)) :
  forall h k (acc : list val),
    Forall2 (fun v r => result_at h v = Some r) elems rs ->
    h !! k = Some (Arr acc) ->
    exists v' h',
      combine_loop (VRef k) elems h = (Normal v', h') /\
      (forall v r, result_at h v = Some r -> result_at h' v = Some r) /\
      match ResultWire.combine_loop acc rs with
      | ResultWire.Err e =>
          v' ∈ elems /\ result_at h' v' = Some (ResultWire.Err e)
      | ResultWire.Ok vs =>
          result_at h' v' = Some (ResultWire.Ok (VRef k)) /\
          h' !! k = Some (Arr vs)
      end.
Proof.
  revert rs. induction elems as [| v elems IH]; intros rs h k acc Hall Hk.
  - apply Forall2_nil_inv_l in Hall as ->. simpl.
    eexists _, _. split; [reflexivity |].
    split; [intros v r; apply result_at_alloc |]. split.
    + simpl. by rewrite lookup_app_r, Nat.sub_diag.
    + by apply lookup_app_l_Some.
  - apply Forall2_cons_inv_l in Hall as (r & rs' & Hv & Hall & ->).
    simpl. unfold bind at 1. rewrite (isErr_refines _ _ _ Hv).
    destruct r as [x | e]; simpl.
    + destruct (result_at_inv _ _ _ Hv) as (j & o & -> & Hj & _ & Hx).
      unfold bind, read, push. simpl. rewrite Hj, Hk. simpl.
      destruct (IH rs' (<[k := Arr (acc ++ [value o])]> h) k (acc ++ [value o]))
        as (v' & h' & Hrun & Hkeep & Hres).
      { eapply Forall2_impl; [exact Hall |]. intros v r Hr.
        by apply result_at_push. }
      { apply list_lookup_insert_eq. by eapply lookup_lt_Some. }
      exists v', h'. split; [exact Hrun |]. subst x. split.
      * intros v r Hr. by apply Hkeep, result_at_push.
      * destruct (ResultWire.combine_loop _ rs'); [done |].
        destruct Hres as [Hin Hres]. split; [by right | done].
    + exists v, h. split; [reflexivity |]. split; [done |].
      split; [by left | done].
Qed.

Lemma get_elems_alloc_empty h (results : val) :
  get_elems results (h ++ [Arr []]) = get_elems results h.
Proof.
  destruct results as [| | | k]; try reflexivity. simpl.
  destruct (decide (k < length h)) as [Hlt | Hge].
  - by rewrite lookup_app_l.
  - rewrite lookup_app_r, (lookup_ge_None_2 h k) by lia.
    destruct (k - length h) as [| n]; [reflexivity |]. by destruct n.
Qed.

(** X24: [combine] on a store whose array [results] holds references
    to the Results [rs] returns what [combine] by values returns on
    [rs]: on a failure the very reference of the failing element, an
    element of the array and no copy; otherwise a success whose payload
    is an array allocated during the call.  Every Result of the store
    reads back as before. *)
Lemma combine_refines h (results : val) (rs : list (ResultWire.Result val val)) :
  Forall2 (fun v r => result_at h v = Some r) (get_elems results h) rs ->
  exists v' h',
    combine results h = (Normal v', h') /\
    (forall v r, result_at h v = Some r -> result_at h' v = Some r) /\
    match ResultWire.combine rs with
    | ResultWire.Err e =>
        v' ∈ get_elems results h /\ result_at h' v' = Some (ResultWire.Err e)
    | ResultWire.Ok vs =>
        exists k, result_at h' v' = Some (ResultWire.Ok (VRef k)) /\
                  length h <= k /\ h' !! k = Some (Arr vs)
    end.
Proof.
  intros Hall. unfold combine, bind, alloc, read. simpl.
  rewrite get_elems_alloc_empty.
  destruct (combine_loop_refines (get_elems results h) rs
              (h ++ [Arr []]) (length h) [])
    as (v' & h' & Hrun & Hkeep & Hres).
  { eapply Forall2_impl; [exact Hall |]. intros v r. apply result_at_alloc. }
  { by rewrite lookup_app_r, Nat.sub_diag. }
  exists v', h'. split; [exact Hrun |]. split.
  - intros v r Hr. by apply Hkeep, result_at_alloc.
  - unfold ResultWire.combine. destruct (ResultWire.combine_loop [] rs).
    + exists (length h). by destruct Hres.
    + exact Hres.
Qed.

End Refinement.

(** On the store of the test suite [combine] hands back the reference
    of the failing element itself, and the store has grown by the array
    of values only. *)
Lemma combine_returns_failing_reference :
  Store.combine (Store.VRef 2) store0
  = (Host.Normal (Store.VRef 1), store0 ++ [Store.Arr [Store.VNum 5]]).
Proof. reflexivity. Qed.

(** * Further properties of the combinators *)

(** ** Aggregation: composition, inversion, accounting *)

Section AggregationLaws.
Import ResultWire.
Context {T E : Type}.
Implicit Types (rs rest : list (Result T E)) (vs : list T) (es : list E).

Lemma successes_app rs1 rs2 :
  Spec.successes (rs1 ++ rs2) = Spec.successes rs1 ++ Spec.successes rs2.
Proof.
  induction rs1 as [| [v | e] rs1 IH]; simpl; [done | by rewrite IH | done].
Qed.

Lemma failures_app rs1 rs2 :
  Spec.failures (rs1 ++ rs2) = Spec.failures rs1 ++ Spec.failures rs2.
Proof.
  induction rs1 as [| [v | e] rs1 IH]; simpl; [done | done | by rewrite IH].
Qed.

Lemma partition_length rs :
  length (Spec.successes rs) + length (Spec.failures rs) = length rs.
Proof.
  induction rs as [| [v | e] rs IH]; simpl; lia.
Qed.

Lemma failures_nil_all_successes rs :
  Spec.failures rs = [] -> rs = List.map Ok (Spec.successes rs).
Proof.
  induction rs as [| [v | e] rs IH]; simpl; [done | | done].
  intros Hf. by rewrite <- IH.
Qed.

Lemma successes_map_Ok vs :
  Spec.successes (List.map Ok vs : list (Result T E)) = vs.
Proof. induction vs as [| v vs IH]; simpl; congruence. Qed.

Lemma failures_map_Ok vs :
  Spec.failures (List.map Ok vs : list (Result T E)) = [].
Proof. induction vs as [| v vs IH]; simpl; congruence. Qed.

Lemma In_failures rs e : In e (Spec.failures rs) <-> In (Err e) rs.
Proof.
  induction rs as [| [v | e'] rs IH]; simpl; [done | |].
  - rewrite IH. split; [by right | by intros [[=] |]].
  - rewrite IH. split; (intros [Heq | Hin]; [left; congruence | by right]).
Qed.

Lemma In_successes rs v : In v (Spec.successes rs) <-> In (Ok v) rs.
Proof.
  induction rs as [| [v' | e] rs IH]; simpl; [done | |].
  - rewrite IH. split; (intros [Heq | Hin]; [left; congruence | by right]).
  - rewrite IH. split; [by right | by intros [[=] |]].
Qed.

(** [combine] and [combineWithAllErrors] by the failure partition. *)
Lemma combine_by_failures rs :
  combine rs = match Spec.failures rs with
               | [] => Ok (Spec.successes rs)
               | e :: _ => Err e
               end.
Proof.
  rewrite combine_spec. destruct (forallb isOk rs) eqn:Hall; [| done].
  assert (existsb isErr rs = false) as Hex
      by (by rewrite forallb_isOk_existsb_isErr, Hall).
  apply failures_nil_iff in Hex. by rewrite Hex.
Qed.

Lemma combineWithAllErrors_by_failures rs :
  combineWithAllErrors rs = match Spec.failures rs with
                            | [] => Ok (Spec.successes rs)
                            | e :: es => Err (e :: es)
                            end.
Proof.
  rewrite combineWithAllErrors_spec.
  destruct (existsb isErr rs) eqn:Hex.
  - destruct (Spec.failures rs) eqn:Hf; [| done].
    apply failures_nil_iff in Hf. congruence.
  - apply failures_nil_iff in Hex. by rewrite Hex.
Qed.

(** X1: [combine] of two sequences put end to end is [combine] of the
    first chained with [combine] of the second: the failure of the
    first if it fails, else the failure of the second if that fails,
    else the success of the two value sequences put end to end. *)
Theorem combine_app :
  forall rs1 rs2 : list (Result T E),
    combine (rs1 ++ rs2)
    = match combine rs1 with
      | Err e => Err e
      | Ok vs1 =>
          match combine rs2 with
          | Err e => Err e
          | Ok vs2 => Ok (vs1 ++ vs2)
          end
      end.
Proof.
  intros rs1 rs2.
  rewrite !combine_by_failures, failures_app, successes_app.
  destruct (Spec.failures rs1); [| done].
  by destruct (Spec.failures rs2).
Qed.

(** X2: [combineWithAllErrors] of two sequences put end to end: the
    success of the two value sequences put end to end when both parts
    succeed; otherwise the failure of the errors of the first part
    followed by those of the second, a part that succeeds adding
    none. *)
Theorem combineWithAllErrors_app :
  forall rs1 rs2 : list (Result T E),
    combineWithAllErrors (rs1 ++ rs2)
    = match combineWithAllErrors rs1, combineWithAllErrors rs2 with
      | Ok vs1, Ok vs2 => Ok (vs1 ++ vs2)
      | Err es1, Ok _ => Err es1
      | Ok _, Err es2 => Err es2
      | Err es1, Err es2 => Err (es1 ++ es2)
      end.
Proof.
  intros rs1 rs2.
  rewrite !combineWithAllErrors_by_failures, failures_app, successes_app.
  destruct (Spec.failures rs1) as [| e1 es1],
           (Spec.failures rs2) as [| e2 es2]; simpl; try done.
  by rewrite app_nil_r.
Qed.

(** X3: a success of [combine], and of [combineWithAllErrors], tells
    the whole input: the result is the success of [vs] exactly when the
    input is the sequence of the successes of the elements of [vs]. *)
Theorem combine_success_inverts :
  forall (rs : list (Result T E)) (vs : list T),
    (combine rs = Ok vs <-> rs = List.map Ok vs) /\
    (combineWithAllErrors rs = Ok vs <-> rs = List.map Ok vs).
Proof.
  intros rs vs.
  rewrite combine_by_failures, combineWithAllErrors_by_failures.
  split; (split; [| intros ->; by rewrite failures_map_Ok, successes_map_Ok]).
  - destruct (Spec.failures rs) eqn:Hf; [| done].
    intros [= <-]. by apply failures_nil_all_successes.
  - destruct (Spec.failures rs) eqn:Hf; [| done].
    intros [= <-]. by apply failures_nil_all_successes.
Qed.

(** X4: a failure of [combineWithAllErrors] never carries an empty
    list; its errors are the failure payloads of the input, and with
    the successes that were dropped they account for every element. *)
Theorem combineWithAllErrors_failure_accounts :
  forall (rs : list (Result T E)) (es : list E),
    combineWithAllErrors rs = Err es ->
    es <> [] /\
    es = Spec.failures rs /\
    length es + length (Spec.successes rs) = length rs /\
    length es <= length rs.
Proof.
  intros rs es. rewrite combineWithAllErrors_by_failures.
  pose proof (partition_length rs) as Hlen.
  destruct (Spec.failures rs) as [| e es'] eqn:Hf; [done |].
  intros [= <-]. simpl in *. repeat split; [done | lia | lia].
Qed.

(** X5: the failure [combine] stops at is the first of the errors
    [combineWithAllErrors] collects: [combine] fails with [e] exactly
    when [combineWithAllErrors] fails with a list that starts with
    [e]. *)
Theorem combine_failure_heads_all_errors :
  forall (rs : list (Result T E)) (e : E),
    combine rs = Err e <-> exists es, combineWithAllErrors rs = Err (e :: es).
Proof.
  intros rs e.
  rewrite combine_by_failures, combineWithAllErrors_by_failures.
  destruct (Spec.failures rs) as [| e' es']; split.
  - done.
  - by intros [es [=]].
  - intros [= ->]. by exists es'.
  - by intros [es [= -> _]].
Qed.

(** X6: the aggregations invent no payload and lose none of the kind
    they return: the values of a success are the success payloads of
    the input, the errors of a failure of [combineWithAllErrors] are
    the failure payloads of the input, and the failure of [combine] is
    an element of the input. *)
Theorem aggregation_payloads_come_from_input :
  forall rs : list (Result T E),
    (forall vs, combine rs = Ok vs -> forall v, In v vs <-> In (Ok v) rs) /\
    (forall e, combine rs = Err e -> In (Err e) rs) /\
    (forall vs, combineWithAllErrors rs = Ok vs ->
                forall v, In v vs <-> In (Ok v) rs) /\
    (forall es, combineWithAllErrors rs = Err es ->
                forall e, In e es <-> In (Err e) rs).
Proof.
  intros rs.
  rewrite combine_by_failures, combineWithAllErrors_by_failures.
  destruct (Spec.failures rs) as [| e' es'] eqn:Hf.
  - split; [| split; [done | split; [| done]]].
    + intros vs [= <-] v. apply In_successes.
    + intros vs [= <-] v. apply In_successes.
  - split; [done | split; [| split; [done |]]].
    + intros e [= <-]. apply In_failures. rewrite Hf. by left.
    + intros es [= <-] e. rewrite <- Hf. apply In_failures.
Qed.

End AggregationLaws.

Lemma combineWithAllErrors_failure_accounts_witness :
  ResultWire.combineWithAllErrors
    [ResultWire.Ok 1; ResultWire.Err "E1"; ResultWire.Ok 3; ResultWire.Err "E2"]
  = ResultWire.Err ["E1"; "E2"] /\
  ["E1"; "E2"] <> [] /\
  length ["E1"; "E2"] <= 4.
Proof.
  split; [reflexivity |].
  destruct (combineWithAllErrors_failure_accounts
              [ResultWire.Ok 1; ResultWire.Err "E1";
               ResultWire.Ok 3; ResultWire.Err "E2"]
              ["E1"; "E2"] eq_refl) as (Hne & _ & _ & Hle).
  split; [exact Hne | exact Hle].
Defined.

Lemma aggregation_payloads_come_from_input_witness :
  ResultWire.combine
    [ResultWire.Ok 1; ResultWire.Err "E1"; ResultWire.Ok 3; ResultWire.Err "E2"]
  = ResultWire.Err "E1" /\
  In (ResultWire.Err "E1")
    [ResultWire.Ok 1; ResultWire.Err "E1"; ResultWire.Ok 3; ResultWire.Err "E2"].
Proof.
  split; [reflexivity |].
  by apply (aggregation_payloads_come_from_input
              [ResultWire.Ok 1; ResultWire.Err "E1";
               ResultWire.Ok 3; ResultWire.Err "E2"]).
Defined.

(** ** Transformation and chaining: laws *)

Section CombinatorLaws.
Import Host ResultWire Callbacks.
Local Open Scope js_scope.
Context {W X T U V E F : Type}.

(** X7: on callbacks that answer at once with a value that is not a
    promise, [map], [andThen] and [match] of [index.ts] do what those
    of [helpers.ts] do, result and effects; [mapErr], [orElse] and
    [unwrapOr], which test for no promise, are the same in both
    files. *)
Theorem index_agrees_with_helpers_on_sync_callbacks :
  (forall (r : Result T E) (f : T -> M W X U) (w : W),
      map r (sync f) w = (r' <- Helpers.map r f ;; ret (Plain r')) w) /\
  (forall (r : Result T E) (f : T -> M W X (Result U E)) (w : W),
      andThen r (sync f) w = (r' <- Helpers.andThen r f ;; ret (Plain r')) w) /\
  (forall (r : Result T E) (okFn : T -> M W X U) (errFn : E -> M W X U) (w : W),
      match_ r (sync okFn) (sync errFn) w
      = (u <- Helpers.match_ r okFn errFn ;; ret (Plain u)) w) /\
  (forall (r : Result T E) (f : E -> M W X F) (w : W),
      mapErr r f w = Helpers.mapErr r f w) /\
  (forall (r : Result T E) (f : E -> M W X (Result T F)) (w : W),
      orElse r f w = Helpers.orElse r f w) /\
  (forall (r : Result T E) (d : T), unwrapOr r d = Helpers.unwrapOr r d).
Proof.
  repeat split.
  - intros [x | e] f w; [| reflexivity].
    unfold map, Helpers.map, sync, bind. by destruct (f x w) as [[u | t] w'].
  - intros [x | e] f w; [| reflexivity].
    unfold andThen, Helpers.andThen, sync, bind.
    by destruct (f x w) as [[u | t] w'].
  - intros [x | e] okFn errFn w; unfold match_, Helpers.match_, sync, bind.
    + by destruct (okFn x w) as [[u | t] w'].
    + by destruct (errFn e w) as [[u | t] w'].
Qed.

(** X8: [map] of [helpers.ts] is a functor on the success side, with
    the effects of the callbacks in the order of the calls: mapping the
    callback that returns its argument changes nothing, and mapping [f]
    then [g] is mapping the callback that calls [f] then [g]. *)
Theorem map_functor_laws :
  (forall (r : Result T E) (w : W),
      Helpers.map (X:=X) r (fun x => ret x) w = (Normal r, w)) /\
  (forall (r : Result T E) (f : T -> M W X U) (g : U -> M W X V) (w : W),
      (r' <- Helpers.map r f ;; Helpers.map r' g) w
      = Helpers.map r (fun x => u <- f x ;; g u) w).
Proof.
  split.
  - by intros [x | e] w.
  - intros [x | e] f g w; [| reflexivity].
    unfold Helpers.map, bind. destruct (f x w) as [[u | t] w']; [| done].
    simpl. by destruct (g u w') as [[v | t] w''].
Qed.

(** X9: [andThen] of [helpers.ts] with [ok] is a monad: chaining [ok]
    changes nothing, and chaining [f] then [g] is chaining the callback
    that calls [f] and chains [g] on what it returns (the left identity
    is C3). *)
Theorem andThen_monad_laws :
  (forall (r : Result T E) (w : W),
      Helpers.andThen (X:=X) r (fun x => ret (ok x)) w = (Normal r, w)) /\
  (forall (r : Result T E) (f : T -> M W X (Result U E))
          (g : U -> M W X (Result V E)) (w : W),
      (r' <- Helpers.andThen r f ;; Helpers.andThen r' g) w
      = Helpers.andThen r (fun x => r' <- f x ;; Helpers.andThen r' g) w).
Proof.
  split.
  - by intros [x | e] w.
  - by intros [x | e] f g w.
Qed.

(** X10: the derived combinators: [map] is [andThen] with the result
    of the callback wrapped by [ok], [mapErr] is [orElse] with it
    wrapped by [err], and [unwrapOr] is [match] with the identity on
    the success side and the default on the failure side. *)
Theorem derived_combinators :
  (forall (r : Result T E) (f : T -> M W X U) (w : W),
      Helpers.map r f w
      = Helpers.andThen r (fun x => u <- f x ;; ret (ok u)) w) /\
  (forall (r : Result T E) (f : E -> M W X F) (w : W),
      mapErr r f w = orElse r (fun e => e' <- f e ;; ret (err e')) w) /\
  (forall (r : Result T E) (d : T) (w : W),
      Helpers.match_ (X:=X) r (fun v => ret v) (fun _ => ret d) w
      = (Normal (unwrapOr r d), w)) /\
  (forall (r : Result T E) (d : T) (w : W),
      match_ (X:=X) r (fun v => ret (Plain v)) (fun _ => ret (Plain d)) w
      = (Normal (Plain (unwrapOr r d)), w)).
Proof. repeat split; by intros [x | e]. Qed.

(** X11: [map] and [mapErr] work on opposite sides and commute: in
    either order the one callback that applies is called once, and the
    result and the effects are the same. *)
Theorem map_mapErr_commute :
  forall (r : Result T E) (f : T -> M W X U) (g : E -> M W X F) (w : W),
    (r' <- Helpers.map r f ;; mapErr r' g) w
    = (r' <- mapErr r g ;; Helpers.map r' f) w.
Proof.
  intros [x | e] f g w; unfold Helpers.map, mapErr, bind; simpl.
  - by destruct (f x w) as [[u | t] w'].
  - by destruct (g e w) as [[e' | t] w'].
Qed.

(** X12: how the tag travels: [map] and [mapErr] keep it; [andThen]
    never makes a success out of a failure; [orElse] never makes a
    failure out of a success. *)
Theorem tag_propagation :
  (forall (r : Result T E) (f : T -> M W X (Returned X U)) w r' w',
      map r f w = (Normal (Plain r'), w') -> isOk r' = isOk r) /\
  (forall (r : Result T E) (f : E -> M W X F) w r' w',
      mapErr r f w = (Normal r', w') -> isOk r' = isOk r) /\
  (forall (r : Result T E) (f : T -> M W X (Returned X (Result U E))) w r' w',
      andThen r f w = (Normal (Plain r'), w') ->
      isOk r' = true -> isOk r = true) /\
  (forall (r : Result T E) (f : E -> M W X (Result T F)) w r' w',
      orElse r f w = (Normal r', w') ->
      isErr r' = true -> isErr r = true).
Proof.
  repeat split.
  - intros [x | e] f w r' w'; unfold map, bind.
    + destruct (f x w) as [[[u | p] | t] w'']; by intros [= <- _].
    + by intros [= <- _].
  - intros [x | e] f w r' w'; unfold mapErr, bind.
    + by intros [= <- _].
    + destruct (f e w) as [[e' | t] w'']; by intros [= <- _].
  - intros [x | e] f w r' w'; [done |]. by intros [= <- _].
  - intros [x | e] f w r' w'; [| done]. by intros [= <- _].
Qed.

(** [match] calls the one function of the side the result is on
    and returns what it returns: the other function does not matter,
    were it the probe. *)
Theorem match_calls_one_branch :
  (forall (x : T) (okFn : T -> M W X (Returned X U))
          (errFn errFn' : E -> M W X (Returned X U)) (w : W),
      match_ (ok x) okFn errFn w = okFn x w /\
      match_ (ok x) okFn errFn w = match_ (ok x) okFn errFn' w) /\
  (forall (e : E) (okFn okFn' : T -> M W X (Returned X U))
          (errFn : E -> M W X (Returned X U)) (w : W),
      match_ (err e) okFn errFn w = errFn e w /\
      match_ (err e) okFn errFn w = match_ (err e) okFn' errFn w).
Proof.
  split.
  - intros x okFn errFn errFn' w. split; [| reflexivity].
    unfold match_, bind. simpl. by destruct (okFn x w) as [[[u | p] | t] w'].
  - intros e okFn okFn' errFn w. split; [| reflexivity].
    unfold match_, bind. simpl. by destruct (errFn e w) as [[[u | p] | t] w'].
Qed.

End CombinatorLaws.

Lemma tag_propagation_witness :
  ResultWire.map (E:=string) (ResultWire.Ok 21) double tt
  = (Host.Normal (Host.Plain (ResultWire.Ok 42)), tt) /\
  ResultWire.isOk (ResultWire.Ok 42 : ResultWire.Result nat string)
  = ResultWire.isOk (ResultWire.Ok 21 : ResultWire.Result nat string).
Proof.
  split; [reflexivity |].
  by apply (proj1 (tag_propagation (W:=unit) (X:=unit) (T:=nat) (U:=nat)
                     (E:=string) (F:=string))
              (ResultWire.Ok 21) double tt (ResultWire.Ok 42) tt).
Defined.

(** ** Extraction and capture: laws *)

Section CaptureLaws.
Import Host ResultWire Callbacks.
Local Open Scope js_scope.
Context {W X T E : Type}.

(** X13: [unsafeUnwrap] returns [v] exactly on the success of [v] and
    throws exactly on the failures; where it returns, [unwrapOr]
    returns the same value whatever the default, and where it throws,
    [unwrapOr] returns the default. *)
Theorem unsafeUnwrap_against_unwrapOr :
  forall r : Result T E,
    (forall v, unsafeUnwrap r = Normal v <-> r = Ok v) /\
    ((exists x, unsafeUnwrap r = Throw x) <-> isErr r = true) /\
    (forall v d, unsafeUnwrap r = Normal v -> unwrapOr r d = v) /\
    (forall x d, unsafeUnwrap r = Throw x -> unwrapOr r d = d).
Proof.
  intros [y | e]; simpl.
  - split; [intros v; split; by intros [= ->] |].
    split; [split; [by intros [x Hx] | done] |].
    split; [by intros v d [= ->] | done].
  - split; [done |].
    split; [split; [done | by eexists] |].
    split; [done | done].
Qed.

(** X14: [fromThrowable] never throws, in either file: whatever [f]
    does, the call returns, and the world after it is the world [f]
    left, so [f] has run once and nothing else has. *)
Theorem fromThrowable_never_throws :
  (forall (f : unit -> M W X (Returned X T)) (w : W),
      exists res, fromThrowable f w = (Normal res, (f tt w).2)) /\
  (forall (f : unit -> M W X T) (w : W),
      exists res, Helpers.fromThrowable f w = (Normal res, (f tt w).2)).
Proof.
  split; intros f w.
  - unfold fromThrowable, tryCatch, bind.
    destruct (f tt w) as [[[v | p] | t] w']; by eexists.
  - unfold Helpers.fromThrowable, tryCatch, bind.
    destruct (f tt w) as [[v | t] w']; by eexists.
Qed.

(** X15: [unsafeUnwrap] under [fromThrowable], the thunk being
    [() => unsafeUnwrap(r)].  In [index.ts] a success whose payload is
    not a promise comes back as it was; a success whose payload is a
    promise does not: it comes back as the promise
    [payload.then(ok).catch(err)], fulfilled with the success of the
    value, or with the failure of the reason when the payload is
    rejected; every failure comes back as the failure of the one
    [Error] of [unsafeUnwrap], whatever its payload was.  In
    [helpers.ts], which tests for no promise, every success comes back
    as it was and every failure as the failure of that one [Error]. *)
Theorem fromThrowable_of_unsafeUnwrap :
  (forall (r : Result (Returned (Error E) T) E) (w : W),
      fromThrowable (ending (unsafeUnwrap r)) w
      = (Normal match r with
                | Ok (Plain x) => Plain (ok x)
                | Ok (IsPromise p) =>
                    IsPromise match p with
                              | Pending => Pending
                              | Fulfilled v => Fulfilled (ok v)
                              | Rejected reason => Fulfilled (err reason)
                              end
                | Err _ =>
                    Plain (err (new_Error "Attempted to unwrap an Err value"))
                end, w)) /\
  (forall (r : Result T E) (w : W),
      Helpers.fromThrowable (ending (Helpers.safeUnwrap r)) w
      = (Normal match r with
                | Ok x => ok x
                | Err _ => err (new_Error "Attempted to unwrap an Err value")
                end, w)).
Proof.
  split.
  - intros [[x | p] | e] w; try reflexivity.
    unfold fromThrowable, tryCatch, bind, ending. simpl. by destruct p.
  - by intros [x | e] w.
Qed.

(** X16: [fromPromise] of [fromPromise]: the outer Result is never a
    failure; it is the success of the Result the inner call settles
    with. *)
Theorem fromPromise_twice :
  forall p : Promise E T,
    fromPromise (fromPromise p)
    = match p with
      | Pending => Pending
      | Fulfilled v => Fulfilled (ok (ok v))
      | Rejected reason => Fulfilled (ok (err reason))
      end.
Proof. by intros [| v | reason]. Qed.

End CaptureLaws.

Lemma unsafeUnwrap_against_unwrapOr_witness :
  ResultWire.unsafeUnwrap (ResultWire.Ok 42 : ResultWire.Result nat string)
  = Host.Normal 42 /\
  ResultWire.unwrapOr (ResultWire.Ok 42 : ResultWire.Result nat string) 0 = 42.
Proof.
  split; [reflexivity |].
  by apply (unsafeUnwrap_against_unwrapOr
              (ResultWire.Ok 42 : ResultWire.Result nat string)).
Defined.

(** ** The asynchronous helpers *)

Section AsyncLaws.
Import Host ResultWire Callbacks.
Local Open Scope js_scope.
Context {W X T U E : Type}.

Lemma await_return {A : Type} (p : Promise X A) :
  await_ p (fun a => Normal a) = p.
Proof. by destruct p. Qed.

(** X17: the asynchronous helpers never throw at the call: each hands
    back a promise, whatever the callback does; on the side they do not
    transform, [asyncMap] and [asyncAndThen] call nothing and hand back
    a promise fulfilled with the failure they were given. *)
Theorem async_helpers_never_throw :
  (forall (r : Result T E) (f : T -> M W X (Promise X U)) (w : W),
      exists p w', Helpers.asyncMap r f w = (Normal p, w')) /\
  (forall (r : Result T E) (f : T -> M W X (Promise X (Result U E))) (w : W),
      exists p w', Helpers.asyncAndThen r f w = (Normal p, w')) /\
  (forall (r : Result T E) (okFn : T -> M W X (Promise X U))
          (errFn : E -> M W X (Promise X U)) (w : W),
      exists p w', Helpers.asyncMatch r okFn errFn w = (Normal p, w')) /\
  (forall (e : E) (f : T -> M W X (Promise X U)) (w : W),
      Helpers.asyncMap (err e) f w = (Normal (Fulfilled (err e)), w)) /\
  (forall (e : E) (f : T -> M W X (Promise X (Result U E))) (w : W),
      Helpers.asyncAndThen (err e) f w = (Normal (Fulfilled (err e)), w)).
Proof.
  repeat split.
  - intros [x | e] f w; [| by eexists _, _].
    unfold Helpers.asyncMap, async_function, bind.
    destruct (f x w) as [[p | t] w']; by eexists _, _.
  - intros [x | e] f w; [| by eexists _, _].
    unfold Helpers.asyncAndThen, async_function, bind.
    destruct (f x w) as [[p | t] w']; by eexists _, _.
  - intros [x | e] okFn errFn w;
      unfold Helpers.asyncMatch, async_function, bind.
    + destruct (okFn x w) as [[p | t] w']; by eexists _, _.
    + destruct (errFn e w) as [[p | t] w']; by eexists _, _.
Qed.

(** X18: on a success the asynchronous helpers capture nothing as a
    failure: the promise of [asyncMap] is fulfilled with the success of
    the value the callback's promise is fulfilled with, and rejected
    with the same reason when that promise is rejected; the promise of
    [asyncAndThen] settles as the callback's promise does; and what the
    callback throws at the call rejects the promise handed back. *)
Theorem async_helpers_settle :
  (forall (x : T) (f : T -> M W X (Promise X U)) (w w' : W) p,
      f x w = (Normal p, w') ->
      Helpers.asyncMap (E:=E) (ok x) f w
      = (Normal match p with
                | Pending => Pending
                | Fulfilled u => Fulfilled (ok u)
                | Rejected reason => Rejected reason
                end, w')) /\
  (forall (x : T) (f : T -> M W X (Promise X U)) (w w' : W) t,
      f x w = (Throw t, w') ->
      Helpers.asyncMap (E:=E) (ok x) f w = (Normal (Rejected t), w')) /\
  (forall (x : T) (f : T -> M W X (Promise X (Result U E))) (w w' : W) p,
      f x w = (Normal p, w') ->
      Helpers.asyncAndThen (ok x) f w = (Normal p, w')) /\
  (forall (x : T) (f : T -> M W X (Promise X (Result U E))) (w w' : W) t,
      f x w = (Throw t, w') ->
      Helpers.asyncAndThen (ok x) f w = (Normal (Rejected t), w')).
Proof.
  repeat split.
  - intros x f w w' p Hf.
    unfold Helpers.asyncMap, async_function, bind, ok. rewrite Hf.
    by destruct p.
  - intros x f w w' t Hf.
    unfold Helpers.asyncMap, async_function, bind, ok. by rewrite Hf.
  - intros x f w w' p Hf.
    unfold Helpers.asyncAndThen, async_function, bind, ok. rewrite Hf.
    by rewrite await_return.
  - intros x f w w' t Hf.
    unfold Helpers.asyncAndThen, async_function, bind, ok. by rewrite Hf.
Qed.

(** X19: [map] of [index.ts] on a callback that answers with a promise
    against [asyncMap]: on a success, when the callback returns, both
    hand back the same promise; they part on a failure, where [map]
    returns the failure itself and [asyncMap] a promise fulfilled with
    it, and when the callback throws, where [map] throws and [asyncMap]
    hands back a rejected promise. *)
Theorem map_against_asyncMap :
  (forall (x : T) (f : T -> M W X (Promise X U)) (w w' : W) p,
      f x w = (Normal p, w') ->
      exists q,
        map (E:=E) (ok x) (answering f) w = (Normal (IsPromise q), w') /\
        Helpers.asyncMap (E:=E) (ok x) f w = (Normal q, w')) /\
  (forall (e : E) (f : T -> M W X (Promise X U)) (w : W),
      map (err e) (answering f) w = (Normal (Plain (err e)), w) /\
      Helpers.asyncMap (err e) f w = (Normal (Fulfilled (err e)), w)) /\
  (forall (x : T) (f : T -> M W X (Promise X U)) (w w' : W) t,
      f x w = (Throw t, w') ->
      map (E:=E) (ok x) (answering f) w = (Throw t, w') /\
      Helpers.asyncMap (E:=E) (ok x) f w = (Normal (Rejected t), w')).
Proof.
  split; [| split].
  - intros x f w w' p Hf. eexists. split.
    + unfold map, answering, bind, ok. by rewrite Hf.
    + unfold Helpers.asyncMap, async_function, bind, ok. by rewrite Hf.
  - by intros e f w.
  - intros x f w w' t Hf. split.
    + unfold map, answering, bind, ok. by rewrite Hf.
    + unfold Helpers.asyncMap, async_function, bind, ok. by rewrite Hf.
Qed.

End AsyncLaws.

(** ** Aggregation on the store *)

Section StoreAggregation.
Import Host Store.
Implicit Types (h : list cell) (v : val) (r : ResultWire.Result val val).

Lemma combineWithAllErrors_loop_refines (elems : list val)
    (rs : list (ResultWire.Result val val)) :
  forall h kv ke (accv acce : list val),
    Forall2 (fun v r => result_at h v = Some r) elems rs ->
    kv <> ke ->
    h !! kv = Some (Arr accv) ->
    h !! ke = Some (Arr acce) ->
    exists m h',
      combineWithAllErrors_loop (VRef kv) (VRef ke) elems h
      = (Normal (VRef m), h') /\
      length h <= m /\
      (forall v r, result_at h v = Some r -> result_at h' v = Some r) /\
      match ResultWire.combineWithAllErrors_loop accv acce rs with
      | ResultWire.Ok vs =>
          result_at h' (VRef m) = Some (ResultWire.Ok (VRef kv)) /\
          h' !! kv = Some (Arr vs)
      | ResultWire.Err es =>
          result_at h' (VRef m) = Some (ResultWire.Err (VRef ke)) /\
          h' !! ke = Some (Arr es)
      end.
Proof.
  revert rs.
  induction elems as [| v elems IH]; intros rs h kv ke accv acce Hall Hne Hkv Hke.
  - apply Forall2_nil_inv_l in Hall as ->. simpl.
    unfold bind, read. simpl. rewrite Hke.
    destruct (Nat.eqb (length acce) 0); simpl.
    + eexists _, _. split; [reflexivity |]. split; [done |].
      split; [intros v r; apply result_at_alloc |]. split.
      * simpl. by rewrite lookup_app_r, Nat.sub_diag.
      * by apply lookup_app_l_Some.
    + eexists _, _. split; [reflexivity |]. split; [done |].
      split; [intros v r; apply result_at_alloc |]. split.
      * simpl. by rewrite lookup_app_r, Nat.sub_diag.
      * by apply lookup_app_l_Some.
  - apply Forall2_cons_inv_l in Hall as (r & rs' & Hv & Hall & ->).
    simpl. unfold bind at 1. rewrite (isOk_refines _ _ _ Hv).
    destruct (result_at_inv _ _ _ Hv) as (j & o & -> & Hj & Hr).
    destruct r as [x | e]; simpl; destruct Hr as [_ <-].
    + unfold bind, read, push. simpl. rewrite Hj, Hkv. simpl.
      destruct (IH rs' (<[kv := Arr (accv ++ [value o])]> h) kv ke
                  (accv ++ [value o]) acce)
        as (m & h' & Hrun & Hm & Hkeep & Hres); try done.
      { eapply Forall2_impl; [exact Hall |]. intros v r Hr.
        by apply result_at_push. }
      { apply list_lookup_insert_eq. by eapply lookup_lt_Some. }
      { by rewrite list_lookup_insert_ne. }
      exists m, h'. split; [exact Hrun |].
      split; [by rewrite length_insert in Hm |]. split; [| exact Hres].
      intros v r Hr. by apply Hkeep, result_at_push.
    + unfold bind, read, push. simpl. rewrite Hj, Hke. simpl.
      destruct (IH rs' (<[ke := Arr (acce ++ [error o])]> h) kv ke
                  accv (acce ++ [error o]))
        as (m & h' & Hrun & Hm & Hkeep & Hres); try done.
      { eapply Forall2_impl; [exact Hall |]. intros v r Hr.
        by apply result_at_push. }
      { by rewrite list_lookup_insert_ne. }
      { apply list_lookup_insert_eq. by eapply lookup_lt_Some. }
      exists m, h'. split; [exact Hrun |].
      split; [by rewrite length_insert in Hm |]. split; [| exact Hres].
      intros v r Hr. by apply Hkeep, result_at_push.
Qed.

(** X20: [combineWithAllErrors] on a store whose array [results] holds
    references to the Results [rs] returns a reference to a new object,
    which reads back as what [combineWithAllErrors] by values returns
    on [rs], its payload an array allocated during the call; every
    Result of the store reads back as before. *)
Theorem combineWithAllErrors_on_store :
  forall h (results : val) (rs : list (ResultWire.Result val val)),
    Forall2 (fun v r => result_at h v = Some r) (get_elems results h) rs ->
    exists m h' k,
      combineWithAllErrors results h = (Normal (VRef m), h') /\
      length h <= m /\
      length h <= k /\
      (forall v r, result_at h v = Some r -> result_at h' v = Some r) /\
      match ResultWire.combineWithAllErrors rs with
      | ResultWire.Ok vs =>
          result_at h' (VRef m) = Some (ResultWire.Ok (VRef k)) /\
          h' !! k = Some (Arr vs)
      | ResultWire.Err es =>
          result_at h' (VRef m) = Some (ResultWire.Err (VRef k)) /\
          h' !! k = Some (Arr es)
      end.
Proof.
  intros h results rs Hall.
  unfold combineWithAllErrors, bind, alloc, read. simpl.
  rewrite !get_elems_alloc_empty.
  destruct (combineWithAllErrors_loop_refines (get_elems results h) rs
              ((h ++ [Arr []]) ++ [Arr []]) (length h) (length (h ++ [Arr []]))
              [] [])
    as (m & h' & Hrun & Hm & Hkeep & Hres).
  { eapply Forall2_impl; [exact Hall |]. intros v r Hr.
    by apply result_at_alloc, result_at_alloc. }
  { rewrite length_app. simpl. lia. }
  { rewrite lookup_app_l by (rewrite length_app; simpl; lia).
    by rewrite lookup_app_r, Nat.sub_diag. }
  { by rewrite lookup_app_r, Nat.sub_diag. }
  rewrite !length_app in *. simpl in *.
  unfold ResultWire.combineWithAllErrors.
  destruct (ResultWire.combineWithAllErrors_loop [] [] rs) as [vs | es].
  - exists m, h', (length h). split; [exact Hrun |].
    split; [lia |]. split; [lia |]. split; [| exact Hres].
    intros v r Hr. by apply Hkeep, result_at_alloc, result_at_alloc.
  - exists m, h', (length h + 1). split; [exact Hrun |].
    split; [lia |]. split; [lia |]. split; [| exact Hres].
    intros v r Hr. by apply Hkeep, result_at_alloc, result_at_alloc.
Qed.

(** X21: an object whose [kind] is neither ['ok'] nor ['err'], as a
    peer may send one: both tests answer false.  The functions that
    test [isOk] take it for a failure and those that test [isErr] for a
    success: [map], [andThen], [mapErr] and [orElse] hand it back
    without a call, [unwrapOr] returns the default, [unsafeUnwrap]
    returns its [value] field and does not throw, [combine] counts it
    as a success and [combineWithAllErrors] as a failure. *)
Theorem neither_ok_nor_err :
  forall h (l : nat) (o : object),
    h !! l = Some (Obj o) ->
    strict_eq (kind o) (VStr "ok") = false ->
    strict_eq (kind o) (VStr "err") = false ->
    isOk (VRef l) h = (Normal false, h) /\
    isErr (VRef l) h = (Normal false, h) /\
    (forall f, map (VRef l) f h = (Normal (VRef l), h)) /\
    (forall f, andThen (VRef l) f h = (Normal (VRef l), h)) /\
    (forall f, mapErr (VRef l) f h = (Normal (VRef l), h)) /\
    (forall f, orElse (VRef l) f h = (Normal (VRef l), h)) /\
    (forall d, unwrapOr (VRef l) d h = (Normal d, h)) /\
    unsafeUnwrap (VRef l) h = (Normal (value o), h) /\
    (forall arr, h !! arr = Some (Arr [VRef l]) ->
        exists v' h',
          combine (VRef arr) h = (Normal v', h') /\
          result_at h' v' = Some (ResultWire.Ok (VRef (length h))) /\
          h' !! length h = Some (Arr [value o])) /\
    (forall arr, h !! arr = Some (Arr [VRef l]) ->
        exists v' h',
          combineWithAllErrors (VRef arr) h = (Normal v', h') /\
          result_at h' v' = Some (ResultWire.Err (VRef (S (length h)))) /\
          h' !! S (length h) = Some (Arr [error o])).
Proof.
  intros h l o Hl Hok Herr.
  assert (isOk (VRef l) h = (Normal false, h)) as HisOk
      by (unfold isOk, read; simpl; by rewrite Hl, Hok).
  assert (isErr (VRef l) h = (Normal false, h)) as HisErr
      by (unfold isErr, read; simpl; by rewrite Hl, Herr).
  split; [done |]. split; [done |].
  split; [intros f; unfold map, bind; by rewrite HisOk |].
  split; [intros f; unfold andThen, bind; by rewrite HisOk |].
  split; [intros f; unfold mapErr, bind; by rewrite HisErr |].
  split; [intros f; unfold orElse, bind; by rewrite HisErr |].
  split; [intros d; unfold unwrapOr, bind; by rewrite HisOk |].
  split.
  { unfold unsafeUnwrap, bind. rewrite HisErr. unfold read. simpl.
    by rewrite Hl. }
  assert (length h <> l) as Hlen by (apply lookup_lt_Some in Hl; lia).
  split.
  - intros arr Harr.
    unfold combine, bind, alloc, read. simpl.
    rewrite (lookup_app_l_Some _ _ _ _ Harr). simpl.
    unfold bind, isErr, read, push. simpl.
    rewrite (lookup_app_l_Some _ _ _ _ Hl), Herr. simpl.
    rewrite lookup_app_r, Nat.sub_diag by done. simpl.
    eexists _, _. split; [reflexivity |]. simpl.
    rewrite length_insert, length_app. simpl.
    rewrite lookup_app_r, length_insert, length_app by
        (rewrite length_insert, length_app; simpl; lia).
    simpl. replace (length h + 1 - (length h + 1)) with 0 by lia. simpl.
    split; [done |].
    rewrite lookup_app_l by (rewrite length_insert, length_app; simpl; lia).
    rewrite list_lookup_insert_eq by (rewrite length_app; simpl; lia).
    by rewrite (lookup_app_l_Some _ _ _ _ Hl).
  - intros arr Harr.
    unfold combineWithAllErrors, bind, alloc, read. simpl.
    rewrite length_app. simpl.
    assert (((h ++ [Arr []]) ++ [Arr []]) !! arr = Some (Arr [VRef l])) as Harr'
        by (by apply lookup_app_l_Some, lookup_app_l_Some).
    assert (((h ++ [Arr []]) ++ [Arr []]) !! l = Some (Obj o)) as Hl'
        by (by apply lookup_app_l_Some, lookup_app_l_Some).
    assert (((h ++ [Arr []]) ++ [Arr []]) !! (length h + 1) = Some (Arr []))
      as Hke.
    { rewrite lookup_app_r by (rewrite length_app; simpl; lia).
      rewrite length_app. simpl.
      by replace (length h + 1 - (length h + 1)) with 0 by lia. }
    rewrite Harr'. simpl.
    unfold bind, isOk, read, push. simpl.
    rewrite Hl', Hok. simpl. rewrite Hke. simpl.
    rewrite list_lookup_insert_eq by (rewrite !length_app; simpl; lia).
    simpl.
    eexists _, _. split; [reflexivity |]. simpl.
    rewrite length_insert, !length_app. simpl.
    rewrite lookup_app_r by (rewrite length_insert, !length_app; simpl; lia).
    rewrite length_insert, !length_app. simpl.
    replace (length h + 1 + 1 - (length h + 1 + 1)) with 0 by lia. simpl.
    replace (length h + 1) with (S (length h)) by lia.
    split; [done |].
    rewrite lookup_app_l by (rewrite length_insert, !length_app; simpl; lia).
    rewrite list_lookup_insert_eq by (rewrite !length_app; simpl; lia).
    by rewrite Hl'.
Qed.

End StoreAggregation.

(** ** The failure side: laws *)

Section FailureSideLaws.
Import Host ResultWire.
Local Open Scope js_scope.
Context {W X T E F G : Type}.

(** X22: [mapErr] is a functor on the failure side, with the effects
    of the callbacks in the order of the calls: mapping the callback
    that returns its argument changes nothing, and mapping [f] then [g]
    is mapping the callback that calls [f] then [g]. *)
Theorem mapErr_functor_laws :
  (forall (r : Result T E) (w : W),
      mapErr (X:=X) r (fun e => ret e) w = (Normal r, w)) /\
  (forall (r : Result T E) (f : E -> M W X F) (g : F -> M W X G) (w : W),
      (r' <- mapErr r f ;; mapErr r' g) w
      = mapErr r (fun e => e' <- f e ;; g e') w).
Proof.
  split.
  - by intros [x | e] w.
  - intros [x | e] f g w; [reflexivity |].
    unfold mapErr, bind. destruct (f e w) as [[e' | t] w']; [| done].
    simpl. by destruct (g e' w') as [[e'' | t] w''].
Qed.

(** X23: [orElse] with [err] is a monad on the failure side: on a
    failure it is the call of the callback itself, chaining [err]
    changes nothing, and chaining [f] then [g] is chaining the callback
    that calls [f] and chains [g] on what it returns; a success goes
    through any chain of [orElse] as it is, no callback called. *)
Theorem orElse_monad_laws :
  (forall (e : E) (f : E -> M W X (Result T F)) (w : W),
      orElse (err e) f w = f e w) /\
  (forall (r : Result T E) (w : W),
      orElse (X:=X) r (fun e => ret (err e)) w = (Normal r, w)) /\
  (forall (r : Result T E) (f : E -> M W X (Result T F))
          (g : F -> M W X (Result T G)) (w : W),
      (r' <- orElse r f ;; orElse r' g) w
      = orElse r (fun e => r' <- f e ;; orElse r' g) w) /\
  (forall (x : T) (f : E -> M W X (Result T F))
          (g : F -> M W X (Result T G)) (w : W),
      (r' <- orElse (ok x) f ;; orElse r' g) w = (Normal (ok x), w)).
Proof.
  split; [done |]. split; [by intros [x | e] w |].
  split; [by intros [x | e] f g w | done].
Qed.

End FailureSideLaws.

(** ** Witnesses *)

Lemma async_helpers_settle_witness :
  Helpers.asyncMap (E:=string) (ResultWire.ok 21) doubling_promise tt
  = (Host.Normal (Host.Fulfilled (ResultWire.ok 42)), tt) /\
  Helpers.asyncMap (E:=string) (ResultWire.ok 21) rejecting_promise tt
  = (Host.Normal (Host.Rejected "late"), tt).
Proof.
  destruct (async_helpers_settle (W:=unit) (X:=string) (T:=nat) (U:=nat)
              (E:=string)) as (Hmap & _).
  split.
  - exact (Hmap 21 doubling_promise tt tt (Host.Fulfilled 42) eq_refl).
  - exact (Hmap 21 rejecting_promise tt tt (Host.Rejected "late") eq_refl).
Defined.

Lemma map_against_asyncMap_witness :
  exists q,
    ResultWire.map (E:=string) (ResultWire.ok 21)
      (Callbacks.answering doubling_promise) tt
    = (Host.Normal (Host.IsPromise q), tt) /\
    Helpers.asyncMap (E:=string) (ResultWire.ok 21) doubling_promise tt
    = (Host.Normal q, tt).
Proof.
  exact (proj1 (map_against_asyncMap (W:=unit) (X:=string) (T:=nat) (U:=nat)
                  (E:=string))
           21 doubling_promise tt tt (Host.Fulfilled 42) eq_refl).
Defined.

Lemma combine_refines_witness :
  exists v' h',
    Store.combine (Store.VRef 2) store0 = (Host.Normal v', h') /\
    Store.result_at h' v' = Some (ResultWire.Err (Store.VStr "E1")).
Proof.
  pose proof (combine_refines store0 (Store.VRef 2)
                [ResultWire.Ok (Store.VNum 5);
                 ResultWire.Err (Store.VStr "E1")]) as H.
  destruct H as (v' & h' & Hrun & _ & _ & Hres).
  { repeat constructor. }
  by exists v', h'.
Defined.

Lemma combineWithAllErrors_on_store_witness :
  exists m h' k,
    Store.combineWithAllErrors (Store.VRef 2) store0
    = (Host.Normal (Store.VRef m), h') /\
    Store.result_at h' (Store.VRef m)
    = Some (ResultWire.Err (Store.VRef k)) /\
    h' !! k = Some (Store.Arr [Store.VStr "E1"]).
Proof.
  pose proof (combineWithAllErrors_on_store store0 (Store.VRef 2)
                [ResultWire.Ok (Store.VNum 5);
                 ResultWire.Err (Store.VStr "E1")]) as H.
  destruct H as (m & h' & k & Hrun & _ & _ & _ & Hres & Hk).
  { repeat constructor. }
  by exists m, h', k.
Defined.

Lemma neither_ok_nor_err_witness :
  store1 !! 0 = Some (Store.Obj tagged_OK) /\
  Store.unsafeUnwrap (Store.VRef 0) store1
  = (Host.Normal (Store.VNum 7), store1) /\
  (exists v' h',
      Store.combine (Store.VRef 1) store1 = (Host.Normal v', h') /\
      Store.result_at h' v' = Some (ResultWire.Ok (Store.VRef 2))) /\
  (exists v' h',
      Store.combineWithAllErrors (Store.VRef 1) store1 = (Host.Normal v', h') /\
      Store.result_at h' v' = Some (ResultWire.Err (Store.VRef 3))).
Proof.
  split; [reflexivity |].
  destruct (neither_ok_nor_err store1 0 tagged_OK eq_refl eq_refl eq_refl)
    as (_ & _ & _ & _ & _ & _ & _ & Hunwrap & Hcombine & Hall).
  split; [exact Hunwrap |]. split.
  - destruct (Hcombine 1 eq_refl) as (v' & h' & Hrun & Hres & _).
    by exists v', h'.
  - destruct (Hall 1 eq_refl) as (v' & h' & Hrun & Hres & _).
    by exists v', h'.
Defined.
